(** * Verification of the audio pipeline of SonaVerta (src/index.tsx)

    Shallow embedding of the parts of [src/index.tsx] that form the audio
    pipeline and the local archive: the WAV container writer
    [createWavBlob], the base64 and PCM decoders [decode] and
    [decodeAudioData], the history store ([saveToHistory],
    [handleClearHistory] and the loading effect), the preview cache of
    [playVoiceSample], the identifiers made by [generateTTS], and the
    playback controller [playFromBase64] with the stop button.

    Bytes are integers in [0, 256) held in [list Z]; platform primitives
    the code calls (DataView setters, [atob], typed-array views, the Web
    Audio source node, [localStorage]) are written out after the
    specifications that define them. *)

From Stdlib Require Import ZArith Lia List Ascii String.
From Stdlib Require Import DecimalString DecimalN DecimalFacts QArith.
From stdpp Require Import base gmap strings list.

Import ListNotations.
Open Scope Z_scope.

(* ------------------------------------------------------------------ *)
(** ** DataView: byte-level writes into an ArrayBuffer *)

Module DataView.

(** ECMAScript ToUint32 / ToUint16 on integer arguments. *)
Definition ToUint32 (v : Z) : Z := v mod 2 ^ 32.
Definition ToUint16 (v : Z) : Z := v mod 2 ^ 16.

(** The bytes of a 32- and 16-bit value, least significant first. *)
Definition le32 (v : Z) : list Z :=
  let x := ToUint32 v in
  [Z.land x 255; Z.land (Z.shiftr x 8) 255;
   Z.land (Z.shiftr x 16) 255; Z.land (Z.shiftr x 24) 255].

Definition le16 (v : Z) : list Z :=
  let x := ToUint16 v in
  [Z.land x 255; Z.land (Z.shiftr x 8) 255].

(** Overwrite [bs] at byte offset [off] of the buffer [buf]. *)
Definition write_at (buf : list Z) (off : nat) (bs : list Z) : list Z :=
  firstn off buf ++ bs ++ skipn (off + length bs) buf.

(** [view.setUint32(off, v, littleEndian)] and [view.setUint16(...)]. *)
Definition setUint32 (buf : list Z) (off : nat) (v : Z) (little : bool)
  : list Z :=
  write_at buf off (if little then le32 v else rev (le32 v)).

Definition setUint16 (buf : list Z) (off : nat) (v : Z) (little : bool)
  : list Z :=
  write_at buf off (if little then le16 v else rev (le16 v)).

(** Reading a little-endian unsigned integer of [w] bytes at [off]. *)
Fixpoint le_value (bs : list Z) : Z :=
  match bs with
  | [] => 0
  | b :: rest => b + 256 * le_value rest
  end.

Definition getUint (buf : list Z) (off w : nat) : Z :=
  le_value (firstn w (skipn off buf)).

End DataView.

(* ------------------------------------------------------------------ *)
(** ** createWavBlob *)

Module Wav.
Import DataView.

(** [new ArrayBuffer(44)]: 44 zero bytes. *)
Definition empty_header : list Z := repeat 0 44.

(** The header writes of [createWavBlob], in source order. *)
Definition wav_header (pcmData : list Z) (sampleRate : Z) : list Z :=
  let len := Z.of_nat (length pcmData) in
  let v := empty_header in
  let v := setUint32 v 0 0x52494646 false in
  let v := setUint32 v 4 (36 + len) true in
  let v := setUint32 v 8 0x57415645 false in
  let v := setUint32 v 12 0x666d7420 false in
  let v := setUint32 v 16 16 true in
  let v := setUint16 v 20 1 true in
  let v := setUint16 v 22 1 true in
  let v := setUint32 v 24 sampleRate true in
  let v := setUint32 v 28 (sampleRate * 2) true in
  let v := setUint16 v 32 2 true in
  let v := setUint16 v 34 16 true in
  let v := setUint32 v 36 0x64617461 false in
  let v := setUint32 v 40 len true in
  v.

(** [new Blob([header, pcmData])]: the bytes of the parts, concatenated. *)
Definition createWavBlob (pcmData : list Z) (sampleRate : Z) : list Z :=
  wav_header pcmData sampleRate ++ pcmData.

(** The ASCII codes of a four-character tag. *)
Definition tag (s : string) : list Z :=
  map (fun c => Z.of_nat (nat_of_ascii c)) (list_ascii_of_string s).

End Wav.

(* ------------------------------------------------------------------ *)
(** ** JavaScript exceptions *)

Module JS.

(** The exceptions the modelled code can raise. *)
Inductive exn :=
| RangeError              (* typed-array view of a misaligned buffer *)
| InvalidCharacterError   (* [atob] on text that is not base64 *)
| InvalidStateError      (* [stop()] on a source node never started *)
| SyntaxError            (* [JSON.parse] on text that is not JSON *)
| QuotaExceededError.    (* [localStorage.setItem] beyond the quota *)

(** A computation that returns a value or throws. *)
Inductive result (A : Type) :=
| Ok (a : A)
| Throw (e : exn).
Arguments Ok {A} a.
Arguments Throw {A} e.

End JS.

(* ------------------------------------------------------------------ *)
(** ** Base64 and [atob] *)

Module Base64.
Import JS.

(** The base64 alphabet of RFC 4648: index [i < 64] to its character. *)
Definition b64char (i : Z) : ascii :=
  ascii_of_nat (Z.to_nat
    (if i <? 26 then 65 + i
     else if i <? 52 then 71 + i
     else if i <? 62 then i - 4
     else if i =? 62 then 43 else 47)).

(** The inverse: the index of an alphabet character, [None] otherwise. *)
Definition b64val (c : ascii) : option Z :=
  let n := Z.of_nat (nat_of_ascii c) in
  if (65 <=? n) && (n <=? 90) then Some (n - 65)
  else if (97 <=? n) && (n <=? 122) then Some (n - 71)
  else if (48 <=? n) && (n <=? 57) then Some (n + 4)
  else if n =? 43 then Some 62
  else if n =? 47 then Some 63
  else None.

(** RFC 4648 encoding, the form of the payloads the synthesis service
    returns: every 3 bytes give 4 sextets; a final group of 1 or 2 bytes
    gives 2 or 3 sextets and is padded with [=]. *)
Fixpoint sextets (bs : list Z) : list Z :=
  match bs with
  | a :: b :: c :: rest =>
      let n := a * 2 ^ 16 + b * 2 ^ 8 + c in
      [n / 2 ^ 18; n / 2 ^ 12 mod 64; n / 2 ^ 6 mod 64; n mod 64]
        ++ sextets rest
  | [a; b] =>
      let n := a * 2 ^ 16 + b * 2 ^ 8 in
      [n / 2 ^ 18; n / 2 ^ 12 mod 64; n / 2 ^ 6 mod 64]
  | [a] =>
      let n := a * 2 ^ 16 in
      [n / 2 ^ 18; n / 2 ^ 12 mod 64]
  | [] => []
  end.

Definition padding (bs : list Z) : list ascii :=
  match (length bs mod 3)%nat with
  | 1%nat => ["="%char; "="%char]
  | 2%nat => ["="%char]
  | _ => []
  end.

Definition base64 (bs : list Z) : string :=
  string_of_list_ascii (map b64char (sextets bs) ++ padding bs).

(** [atob], after the forgiving-base64 decode of the HTML standard. *)
Definition is_ascii_whitespace (c : ascii) : bool :=
  let n := nat_of_ascii c in
  ((n =? 9) || (n =? 10) || (n =? 12) || (n =? 13) || (n =? 32))%nat.

(** Step 2: when the length is a multiple of 4, drop one or two
    trailing [=]. *)
Definition strip_padding (cs : list ascii) : list ascii :=
  if (length cs mod 4 =? 0)%nat then
    match rev cs with
    | c1 :: r =>
        if Ascii.eqb c1 "="%char then
          match r with
          | c2 :: r' => if Ascii.eqb c2 "="%char then rev r' else rev r
          | [] => []
          end
        else cs
    | [] => cs
    end
  else cs.

Fixpoint traverse_b64 (cs : list ascii) : option (list Z) :=
  match cs with
  | [] => Some []
  | c :: rest =>
      match b64val c, traverse_b64 rest with
      | Some v, Some vs => Some (v :: vs)
      | _, _ => None
      end
  end.

(** Steps 5 to 8: append 6 bits per character to a buffer, emit a byte
    per 8 bits; a final 12 or 18 bits lose their last 4 or 2 bits. *)
Fixpoint decode_sextets (vs : list Z) : list Z :=
  match vs with
  | a :: b :: c :: d :: rest =>
      let n := a * 2 ^ 18 + b * 2 ^ 12 + c * 2 ^ 6 + d in
      [n / 2 ^ 16 mod 256; n / 2 ^ 8 mod 256; n mod 256]
        ++ decode_sextets rest
  | [a; b; c] =>
      let n := (a * 2 ^ 12 + b * 2 ^ 6 + c) / 4 in
      [n / 2 ^ 8 mod 256; n mod 256]
  | [a; b] =>
      let n := (a * 2 ^ 6 + b) / 16 in
      [n mod 256]
  | _ => []
  end.

Definition byte_char (b : Z) : ascii := ascii_of_nat (Z.to_nat b).

Definition atob (data : string) : result string :=
  let cs := List.filter (fun c => negb (is_ascii_whitespace c))
                   (list_ascii_of_string data) in
  let cs := strip_padding cs in
  if (length cs mod 4 =? 1)%nat then Throw InvalidCharacterError
  else
    match traverse_b64 cs with
    | None => Throw InvalidCharacterError
    | Some vs => Ok (string_of_list_ascii (map byte_char (decode_sextets vs)))
    end.

End Base64.

(* ------------------------------------------------------------------ *)
(** ** [decode] and the sample view of [decodeAudioData] *)

Module Codec.
Import JS Base64.

Definition charCodeAt (c : ascii) : Z := Z.of_nat (nat_of_ascii c).

(** Assignment into a [Uint8Array] stores ToUint8 of the value. *)
Definition ToUint8 (v : Z) : Z := v mod 256.

(** [decode]: [atob], then one byte per character code. *)
Definition decode (base64 : string) : result (list Z) :=
  match atob base64 with
  | Throw e => Throw e
  | Ok bin => Ok (map (fun c => ToUint8 (charCodeAt c)) (list_ascii_of_string bin))
  end.

(** Signed 16-bit little-endian values of consecutive byte pairs. *)
Fixpoint int16_le (bs : list Z) : list Z :=
  match bs with
  | lo :: hi :: rest =>
      let u := lo + 256 * hi in
      (if 32768 <=? u then u - 65536 else u) :: int16_le rest
  | _ => []
  end.

(** [new Int16Array(data.buffer)]: the buffer's byte length must be a
    multiple of the element size 2, otherwise a [RangeError] is thrown. *)
Definition Int16Array_of_buffer (buf : list Z) : result (list Z) :=
  if (length buf mod 2 =? 0)%nat then Ok (int16_le buf) else Throw RangeError.

(** The samples [playFromBase64] hands to the audio buffer:
    [decodeAudioData(decode(base64), ...)] up to its line 74 view
    [dataInt16]; [decode] allocates a fresh [Uint8Array], so
    [data.buffer] holds exactly the decoded bytes. *)
Definition decodeSamples (base64 : string) : result (list Z) :=
  match decode base64 with
  | Throw e => Throw e
  | Ok data => Int16Array_of_buffer data
  end.

(** The little-endian bytes of signed 16-bit samples (the inverse view). *)
Fixpoint int16_bytes (ss : list Z) : list Z :=
  match ss with
  | [] => []
  | s :: rest => let u := s mod 65536 in u mod 256 :: u / 256 :: int16_bytes rest
  end.

End Codec.

(* ------------------------------------------------------------------ *)
(** ** The history store *)

Module History.
Import JS.

Record AudioHistoryItem := {
  id : string;
  text : string;
  voice : string;
  voiceLabel : string;
  language : string;
  languageName : string;
  timestamp : string;
  audioData : string
}.

(** The value [JSON.parse] returns for a snapshot: an array of history
    items, or any other JSON value. *)
Inductive jsvalue :=
| JItems (items : list AudioHistoryItem)
| JOther (raw : string).

Definition HISTORY_KEY : string := "sonaverta_history_v10".

(** The React state [history] and the [localStorage] of the page. *)
Record AppState := {
  history : list AudioHistoryItem;
  storage : gmap string string
}.

Section Store.
(** [JSON.stringify] and [JSON.parse], left unspecified: the properties
    below hold whatever text they produce or accept. *)
Variable JSON_stringify : list AudioHistoryItem -> string.
Variable JSON_parse : string -> result jsvalue.
(** The storage quota of the user agent: whether it admits a store
    holding these entries.  Its size is implementation-defined. *)
Variable storage_fits : gmap string string -> bool.

(** [localStorage.setItem(key, value)] (HTML, Web Storage): nothing to
    do when the key already holds the value; otherwise the entry is set,
    or, when the quota refuses the new store, [QuotaExceededError] is
    thrown and the store is left as it was. *)
Definition setItem (store : gmap string string) (key value : string)
  : result (gmap string string) :=
  if decide (store !! key = Some value) then Ok store
  else if storage_fits (<[key := value]> store) then Ok (<[key := value]> store)
  else Throw QuotaExceededError.

(** [saveToHistory]: prepend, keep the first 50, set the state, persist.
    [setHistory] runs before [setItem], so the new history is kept even
    when [setItem] throws; the result is the state after the call and
    the exception it throws, if any. *)
Definition saveToHistory (st : AppState) (item : AudioHistoryItem)
  : AppState * option exn :=
  let newHistory := firstn 50 (item :: history st) in
  match setItem (storage st) HISTORY_KEY (JSON_stringify newHistory) with
  | Ok store => ({| history := newHistory; storage := store |}, None)
  | Throw e => ({| history := newHistory; storage := storage st |}, Some e)
  end.

(** [handleClearHistory]: empty the state, remove the stored record. *)
Definition handleClearHistory (st : AppState) : AppState :=
  {| history := []; storage := delete HISTORY_KEY (storage st) |}.

(** The loading effect: the initial state [[]] is kept unless the stored
    text is non-empty and parses; a parse error is caught and logged.
    The result is the history value and the [console.error] lines. *)
Definition load (store : gmap string string) : result (jsvalue * list string) :=
  let initial := JItems [] in
  match store !! HISTORY_KEY with
  | None => Ok (initial, [])
  | Some saved =>
      if String.eqb saved "" then Ok (initial, [])
      else
        match JSON_parse saved with
        | Ok v => Ok (v, [])
        | Throw _ => Ok (initial, ["Failed to parse history"%string])
        end
  end.

End Store.

(** A sample item. *)
Definition sample_item : AudioHistoryItem :=
  {| id := "1"; text := "t"; voice := "Kore"; voiceLabel := "Evelyn";
     language := "en-US"; languageName := "English (US)";
     timestamp := "0"; audioData := "AAAA" |}.

End History.

(* ------------------------------------------------------------------ *)
(** ** The preview cache of [playVoiceSample] *)

Module SampleCache.

(** [sampleCache.current], a [Map<string, string>]. *)
Abbreviation Cache := (gmap string string).

(** The ids of the voice catalogue [voices] and the codes of
    [languages]. *)
Definition voice_ids : list string :=
  ["Kore"; "Zephyr"; "Puck"; "Charon"; "Fenrir"; "Kore"; "Puck"; "Zephyr"].

Definition language_codes : list string :=
  ["hi-IN"; "te-IN"; "ta-IN"; "mr-IN"; "kn-IN"; "ml-IN"; "bn-IN"; "gu-IN";
   "en-US"; "en-GB"; "es-ES"; "fr-FR"; "de-DE"; "ja-JP"].

(** The template literal [`${voice.id}-${selectedLang}`]. *)
Definition cacheKey (voiceId langCode : string) : string :=
  String.append voiceId (String "-"%char langCode).

(** [sampleCache.current.get(cacheKey)] and [.set(cacheKey, audio)]. *)
Definition cache_get (c : Cache) (voiceId langCode : string) : option string :=
  c !! cacheKey voiceId langCode.

Definition cache_put (c : Cache) (voiceId langCode payload : string) : Cache :=
  <[cacheKey voiceId langCode := payload]> c.

(** A string without the separator character. *)
Definition no_dash (s : string) : bool :=
  forallb (fun c => negb (Ascii.eqb c "-"%char)) (list_ascii_of_string s).

(** The cache of a page after the previews that filled it: the
    [(voice id, language, payload)] of each [set], in order, from the
    empty [new Map()]. *)
Definition fill (puts : list (string * string * string)) : Cache :=
  fold_left (fun c '(v, l, p) => cache_put c v l p) puts ∅.

End SampleCache.

(* ------------------------------------------------------------------ *)
(** ** Identifiers of history entries *)

Module Ids.
Import History.

(** [Date.now().toString()] for a clock reading [now] in milliseconds. *)
Definition id_of_clock (now : N) : string :=
  NilZero.string_of_uint (N.to_uint now).

(** The item [generateTTS] builds at clock reading [now]; the time stamp
    text ([toLocaleString]) is passed in. *)
Definition newItem (now : N) (text voice voiceLabel language languageName
  stamp audio : string) : AudioHistoryItem :=
  {| id := id_of_clock now; text := text; voice := voice;
     voiceLabel := voiceLabel; language := language;
     languageName := languageName; timestamp := stamp; audioData := audio |}.

(** [Number(id)] on decimal digit strings. *)
Definition number_of_id (s : string) : option N :=
  option_map N.of_uint (NilZero.uint_of_string s).

End Ids.

(* ------------------------------------------------------------------ *)
(** ** The playback controller: [playFromBase64] and the stop button *)

Module Playback.
Import JS Codec.

(** An [AudioBufferSourceNode] as the Web Audio API specifies it: its
    [[source started]] flag, and whether its playback has ended (by
    [stop()] or by reaching the end of its buffer).  Every node of the
    code gets the same [onended] handler, [() => setIsPlaying(false)]. *)
Record SourceNode := { started : bool; stopped : bool }.

Inductive ctx_state := Running | Suspended.

(** Jobs of the event loop: the continuation of [playFromBase64] after
    [await decodeAudioData(...)] is a microtask; the [ended] event of a
    node and the settling of [ctx.resume()] are tasks. *)
Inductive micro := CStart (samples : result (list Z)).
Inductive task := TEnded (n : nat) | TResume (payload : string).

Record Player := {
  nodes : list SourceNode;          (* every node created, by index *)
  sourceNodeRef : option nat;       (* [sourceNodeRef.current] *)
  isPlaying : bool;                 (* the React state [isPlaying] *)
  audioContext : option ctx_state;  (* [audioContextRef.current] *)
  microtasks : list micro;
  tasks : list task;
  fired : list nat                  (* nodes whose [onended] has run *)
}.

Definition initial : Player :=
  {| nodes := []; sourceNodeRef := None; isPlaying := false;
     audioContext := None; microtasks := []; tasks := []; fired := [] |}.

Definition with_nodes (st : Player) ns : Player :=
  {| nodes := ns; sourceNodeRef := sourceNodeRef st; isPlaying := isPlaying st;
     audioContext := audioContext st; microtasks := microtasks st;
     tasks := tasks st; fired := fired st |}.
Definition with_ref (st : Player) r : Player :=
  {| nodes := nodes st; sourceNodeRef := r; isPlaying := isPlaying st;
     audioContext := audioContext st; microtasks := microtasks st;
     tasks := tasks st; fired := fired st |}.
Definition with_playing (st : Player) b : Player :=
  {| nodes := nodes st; sourceNodeRef := sourceNodeRef st; isPlaying := b;
     audioContext := audioContext st; microtasks := microtasks st;
     tasks := tasks st; fired := fired st |}.
Definition with_ctx (st : Player) c : Player :=
  {| nodes := nodes st; sourceNodeRef := sourceNodeRef st;
     isPlaying := isPlaying st; audioContext := c;
     microtasks := microtasks st; tasks := tasks st; fired := fired st |}.
Definition with_micro (st : Player) ms : Player :=
  {| nodes := nodes st; sourceNodeRef := sourceNodeRef st;
     isPlaying := isPlaying st; audioContext := audioContext st;
     microtasks := ms; tasks := tasks st; fired := fired st |}.
Definition with_tasks (st : Player) ts : Player :=
  {| nodes := nodes st; sourceNodeRef := sourceNodeRef st;
     isPlaying := isPlaying st; audioContext := audioContext st;
     microtasks := microtasks st; tasks := ts; fired := fired st |}.
Definition with_fired (st : Player) fs : Player :=
  {| nodes := nodes st; sourceNodeRef := sourceNodeRef st;
     isPlaying := isPlaying st; audioContext := audioContext st;
     microtasks := microtasks st; tasks := tasks st; fired := fs |}.

(** [node.stop()]: an [InvalidStateError] if the node was never started;
    nothing more on a node that has already ended; otherwise playback
    ends and an [ended] event is queued. *)
Definition stopNode (st : Player) (n : nat) : result Player :=
  match nodes st !! n with
  | None => Ok st
  | Some nd =>
      if negb (started nd) then Throw InvalidStateError
      else if stopped nd then Ok st
      else Ok (with_tasks
                 (with_nodes st (<[n := {| started := true; stopped := true |}]>
                                   (nodes st)))
                 (tasks st ++ [TEnded n]))
  end.

(** After the context runs: [decode] and [decodeAudioData] run, and the
    rest of the body waits for the [await]. *)
Definition after_resume (st : Player) (payload : string) : Player :=
  with_micro st (microtasks st ++ [CStart (decodeSamples payload)]).

(** [playFromBase64(base64)] up to its first suspension. *)
Definition playFromBase64 (st : Player) (payload : string) : Player :=
  let st1 := match sourceNodeRef st with
             | None => st
             | Some n => match stopNode st n with
                         | Ok s => s
                         | Throw _ => st       (* try { ... } catch(e) {} *)
                         end
             end in
  let st2 := match audioContext st1 with
             | None => with_ctx st1 (Some Running)
             | Some _ => st1
             end in
  match audioContext st2 with
  | Some Suspended => with_tasks st2 (tasks st2 ++ [TResume payload])
  | _ => after_resume st2 payload
  end.

(** The rest of [playFromBase64] after [await decodeAudioData(...)]: a
    rejected decode ends the call; [createBuffer] rejects a buffer of 0
    frames; otherwise a new node is created, started, stored in
    [sourceNodeRef] and [isPlaying] is set. *)
Definition run_micro (st : Player) (m : micro) : Player :=
  match m with
  | CStart (Throw _) => st
  | CStart (Ok []) => st
  | CStart (Ok _) =>
      let n := length (nodes st) in
      with_playing
        (with_ref
           (with_nodes st (nodes st ++ [{| started := true; stopped := false |}]))
           (Some n))
        true
  end.

(** After each task the microtask queue is drained. *)
Definition drain (st : Player) : Player :=
  fold_left run_micro (microtasks st) (with_micro st []).

(** The event loop runs the oldest task: an [ended] event calls the
    node's [onended]; a settled [ctx.resume()] continues its call. *)
Definition run_task (st : Player) : Player :=
  match tasks st with
  | [] => st
  | TEnded n :: ts =>
      with_playing (with_fired (with_tasks st ts) (fired st ++ [n])) false
  | TResume p :: ts => after_resume (with_ctx (with_tasks st ts) (Some Running)) p
  end.

(** A started node reaches the end of its buffer. *)
Definition finish (st : Player) (n : nat) : Player :=
  match nodes st !! n with
  | Some nd =>
      if started nd && negb (stopped nd) then
        with_tasks
          (with_nodes st (<[n := {| started := true; stopped := true |}]>
                            (nodes st)))
          (tasks st ++ [TEnded n])
      else st
  | None => st
  end.

(** The host suspends the audio context. *)
Definition suspend (st : Player) : Player :=
  match audioContext st with
  | Some _ => with_ctx st (Some Suspended)
  | None => st
  end.

(** The stop button: [if (sourceNodeRef.current) sourceNodeRef.current.stop();
    setIsPlaying(false);] with no [try]. *)
Definition stopButton (st : Player) : result Player :=
  match sourceNodeRef st with
  | None => Ok (with_playing st false)
  | Some n =>
      match stopNode st n with
      | Ok s => Ok (with_playing s false)
      | Throw e => Throw e
      end
  end.

Inductive action :=
| Play (payload : string)   (* a call of [playFromBase64] *)
| StopButton
| RunTask
| Finish (n : nat)
| Suspend.

Definition handle (st : Player) (a : action) : result Player :=
  match a with
  | Play p => Ok (playFromBase64 st p)
  | StopButton => stopButton st
  | RunTask => Ok (run_task st)
  | Finish n => Ok (finish st n)
  | Suspend => Ok (suspend st)
  end.

(** One task of the event loop; a handler that throws is aborted. *)
Definition exec_action (st : Player) (a : action) : Player :=
  drain (match handle st a with Ok s => s | Throw _ => st end).

Definition exec (acts : list action) : Player :=
  fold_left exec_action acts initial.

(** A node that is started and has not ended. *)
Definition live (nd : SourceNode) : bool := started nd && negb (stopped nd).

Definition live_nodes (st : Player) : list nat :=
  List.filter (fun n => match nodes st !! n with
                        | Some nd => live nd | None => false end)
              (seq 0 (length (nodes st))).

End Playback.

(* ------------------------------------------------------------------ *)
(** ** The full [decodeAudioData] *)

Module WebAudio.
Import JS Codec.

(** Outcomes of [decodeAudioData]: the channel data of the buffer, a
    rejection with a JavaScript exception (the [Int16Array] view), or the
    [NotSupportedError] of [ctx.createBuffer]. *)
Inductive buffer_result :=
| Buffer (channels : list (list Q))
| Rejects (e : exn)
| NotSupported.

(** [ctx.createBuffer(numChannels, frameCount, sampleRate)] rejects 0 or
    more than 32 channels, 0 frames, and rates outside the range
    [3000 .. 768000] current engines accept. *)
Definition createBuffer_ok (numChannels frameCount : nat) (sampleRate : Z) : bool :=
  (1 <=? numChannels)%nat && (numChannels <=? 32)%nat && (1 <=? frameCount)%nat &&
  (3000 <=? sampleRate) && (sampleRate <=? 768000).

(** [decodeAudioData(data, ctx, sampleRate, numChannels)].  The frame
    count [dataInt16.length / numChannels] is converted to an
    [unsigned long] by [createBuffer] (truncation; [Infinity] gives 0,
    as [n / 0] does on [nat]).  Each stored value is
    [dataInt16[i * numChannels + channel] / 32768.0]: a 16-bit integer
    divided by 2^15, exact in binary32, hence the rational [s / 32768]. *)
Definition decodeAudioData (data : list Z) (sampleRate : Z) (numChannels : nat)
  : buffer_result :=
  match Int16Array_of_buffer data with
  | Throw e => Rejects e
  | Ok dataInt16 =>
      let frameCount := (length dataInt16 / numChannels)%nat in
      if createBuffer_ok numChannels frameCount sampleRate then
        Buffer (map (fun channel =>
                  map (fun i => (nth (i * numChannels + channel) dataInt16 0%Z # 32768)%Q)
                      (seq 0 frameCount))
                (seq 0 numChannels))
      else NotSupported
  end.

End WebAudio.

(* ------------------------------------------------------------------ *)
(** ** The catalogues [voices] and [languages] *)

Module Catalogue.

(** Strings hold the UTF-8 bytes of the JavaScript text. *)
Record VoiceOption := {
  id : string;
  label : string;
  gender : string;
  description : string;
  persona : string
}.

Record LanguageOption := {
  code : string;
  name : string;
  flag : string;
  localName : string;
  sampleText : string
}.

Definition mkVoice i l g d p : VoiceOption :=
  {| id := i; label := l; gender := g; description := d; persona := p |}.

Definition mkLang c n l f s : LanguageOption :=
  {| code := c; name := n; localName := l; flag := f; sampleText := s |}.

Definition voices : list VoiceOption := [
  mkVoice "Kore" "Evelyn" "Female" "Warm and inviting tones." "Storyteller";
  mkVoice "Zephyr" "Caleb" "Male" "Clear, concise and modern." "Tech News";
  mkVoice "Puck" "Finn" "Male" "High energy and expressive." "Commercial";
  mkVoice "Charon" "Winston" "Male" "Deep, resonant authority." "Documentary";
  mkVoice "Fenrir" "Silas" "Male" "Gravelly and experienced." "Old Sage";
  mkVoice "Kore" "Maya" "Female" "Friendly and professional." "Corporate Lead";
  mkVoice "Puck" "Aria" "Female" "Youthful and vibrant." "Social Media";
  mkVoice "Zephyr" "Alex" "Neutral" "Balanced and instructional." "Education"
].

Definition languages : list LanguageOption := [
  mkLang "hi-IN" "Hindi" "हिन्दी" "🇮🇳" "नमस्ते, यह हिंदी में मेरी आवाज़ का नमूना है।";
  mkLang "te-IN" "Telugu" "తెలుగు" "🇮🇳" "నమస్కారం, ఇది తెలుగులో నా స్వరం యొక్క నమూనా.";
  mkLang "ta-IN" "Tamil" "தமிழ்" "🇮🇳" "வணக்கம், இது தமிழில் எனது குரலின் மாதிரி.";
  mkLang "mr-IN" "Marathi" "मराठी" "🇮🇳" "नमस्कार, हा मराठीतील माझ्या आवाजाचा नमुना आहे.";
  mkLang "kn-IN" "Kannada" "ಕನ್ನಡ" "🇮🇳" "ನಮಸ್ಕಾರ, ಇದು ಕನ್ನಡದಲ್ಲಿ ನನ್ನ ಧ್ವನಿಯ ಮಾದರಿಯಾಗಿದೆ.";
  mkLang "ml-IN" "Malayalam" "മലയാളം" "🇮🇳" "നമസ്കാരം, ഇത് മലയാളത്തിലുള്ള എന്റെ ശബ്ദത്തിന്റെ മാതൃകയാണ്.";
  mkLang "bn-IN" "Bengali" "বাংলা" "🇮🇳" "নমস্কার, এটি বাংলায় আমার কণ্ঠস্বরের একটি नमूना।";
  mkLang "gu-IN" "Gujarati" "ગુજરાતી" "🇮🇳" "नमस्ते, आ गुजराती में मारा अवाजनो नमूने छे.";
  mkLang "en-US" "English (US)" "English (US)" "🇺🇸" "Hello, this is a sample of my voice in English.";
  mkLang "en-GB" "English (UK)" "English (UK)" "🇬🇧" "Greetings, this is how I sound in British English.";
  mkLang "es-ES" "Spanish" "Español" "🇪🇸" "Hola, esta es una muestra de mi voz en español.";
  mkLang "fr-FR" "French" "Français" "🇫🇷" "Bonjour, voici un échantillon de ma voix en français.";
  mkLang "de-DE" "German" "Deutsch" "🇩🇪" "Hallo, dies ist eine Hörprobe meiner Stimme auf Deutsch.";
  mkLang "ja-JP" "Japanese" "日本語" "🇯🇵" "こんにちは、これは日本語での私の声のサンプルです。"
].

End Catalogue.

(* ------------------------------------------------------------------ *)
(** ** Deleting one archive entry, and sequences of archive operations *)

Module Archive.
Import History.

Section Ops.
Variable JSON_stringify : list AudioHistoryItem -> string.

Variable storage_fits : gmap string string -> bool.

(** The delete button of an entry: keep the entries with another id,
    set the state, persist; [setItem] may throw after [setHistory]. *)
Definition deleteHistoryItem (st : AppState) (itemId : string)
  : AppState * option JS.exn :=
  let newHistory := List.filter (fun h => negb (String.eqb (id h) itemId))
                                (history st) in
  match setItem storage_fits (storage st) HISTORY_KEY (JSON_stringify newHistory) with
  | JS.Ok store => ({| history := newHistory; storage := store |}, None)
  | JS.Throw e => ({| history := newHistory; storage := storage st |}, Some e)
  end.

(** The three handlers that change the archive.  Each runs as its own
    event: an exception it throws is reported and ends that handler
    only. *)
Inductive history_op :=
| OpSave (item : AudioHistoryItem)
| OpDelete (itemId : string)
| OpClear.

Definition apply_op (st : AppState) (op : history_op) : AppState * option JS.exn :=
  match op with
  | OpSave item => saveToHistory JSON_stringify storage_fits st item
  | OpDelete i => deleteHistoryItem st i
  | OpClear => (handleClearHistory st, None)
  end.

(** A sequence of handlers: the final state, and the exceptions thrown,
    in order. *)
Fixpoint run_ops (ops : list history_op) (st : AppState)
  : AppState * list JS.exn :=
  match ops with
  | [] => (st, [])
  | op :: rest =>
      let (st1, thrown) := apply_op st op in
      let (st2, errs) := run_ops rest st1 in
      (st2, option_list thrown ++ errs)
  end.

End Ops.

End Archive.

(* ------------------------------------------------------------------ *)
(** ** [downloadAudio] *)

Module Download.
Import JS Codec Wav History.

(** [`SonaVerta-${item.id}.wav`] *)
Definition downloadName (item : AudioHistoryItem) : string :=
  String.append "SonaVerta-" (String.append (id item) ".wav").

(** The file the anchor click saves: its name and the bytes of the
    [audio/wav] blob.  [decode] throws before anything is created. *)
Definition downloadAudio (item : AudioHistoryItem) : result (string * list Z) :=
  match decode (audioData item) with
  | Throw e => Throw e
  | Ok pcmData => Ok (downloadName item, createWavBlob pcmData 24000)
  end.

End Download.

(* ------------------------------------------------------------------ *)
(** ** The editor: [generateTTS] and [playVoiceSample] *)

Module Studio.
Import JS SampleCache Playback.

(** JavaScript truthiness of a string, and of an optional string. *)
Definition truthy (s : string) : bool := negb (String.eqb s "").

Definition truthy_value (o : option string) : option string :=
  match o with
  | Some s => if truthy s then Some s else None
  | None => None
  end.

Definition opt_truthy (o : option string) : bool :=
  match truthy_value o with Some _ => true | None => false end.

(** [text.trim()] is empty exactly when the text consists of
    WhiteSpace and LineTerminator code points: U+0009..U+000D, U+0020,
    U+00A0, U+1680, U+2000..U+200A, U+2028, U+2029, U+202F, U+205F,
    U+3000, U+FEFF, read here in their UTF-8 form. *)
Definition js_space1 (a : nat) : bool :=
  (((9 <=? a) && (a <=? 13)) || (a =? 32))%nat.

Definition js_space2 (a b : nat) : bool := ((a =? 194) && (b =? 160))%nat.

Definition js_space3 (a b c : nat) : bool :=
  (((a =? 225) && (b =? 154) && (c =? 128)) ||
   ((a =? 226) && (b =? 128) &&
      (((128 <=? c) && (c <=? 138)) || (c =? 168) || (c =? 169) || (c =? 175))) ||
   ((a =? 226) && (b =? 129) && (c =? 159)) ||
   ((a =? 227) && (b =? 128) && (c =? 128)) ||
   ((a =? 239) && (b =? 187) && (c =? 191)))%nat.

Fixpoint blank (cs : list ascii) : bool :=
  match cs with
  | [] => true
  | c :: r =>
      if js_space1 (nat_of_ascii c) then blank r
      else match r with
           | c2 :: r2 =>
               if js_space2 (nat_of_ascii c) (nat_of_ascii c2) then blank r2
               else match r2 with
                    | c3 :: r3 =>
                        if js_space3 (nat_of_ascii c) (nat_of_ascii c2)
                                     (nat_of_ascii c3)
                        then blank r3 else false
                    | [] => false
                    end
           | [] => false
           end
  end.

Definition trim_empty (s : string) : bool := blank (list_ascii_of_string s).

(** The reply of [ai.models.generateContent]: the response resolved with
    [response.candidates?.[0]?.content?.parts?.[0]?.inlineData?.data],
    or the call rejected. *)
Inductive reply :=
| Reply (data : option string)
| Rejected.

Definition reply_audio (r : reply) : option string :=
  match r with
  | Reply d => truthy_value d
  | Rejected => None
  end.

(** The component's state: React state, the refs it touches, and the
    observable effects (alerts shown, [generateContent] calls made as
    (text, voiceName) pairs). *)
Record Studio := {
  text : string;
  selectedVoice : option string;
  selectedLang : option string;
  isGenerating : bool;
  isPreviewing : option string;
  app : History.AppState;
  sampleCache : Cache;
  player : Player;
  alerts : list string;
  requests : list (string * string)
}.

Definition set_generating (st : Studio) b : Studio :=
  {| text := text st; selectedVoice := selectedVoice st;
     selectedLang := selectedLang st; isGenerating := b;
     isPreviewing := isPreviewing st; app := app st;
     sampleCache := sampleCache st; player := player st;
     alerts := alerts st; requests := requests st |}.
Definition set_previewing (st : Studio) p : Studio :=
  {| text := text st; selectedVoice := selectedVoice st;
     selectedLang := selectedLang st; isGenerating := isGenerating st;
     isPreviewing := p; app := app st;
     sampleCache := sampleCache st; player := player st;
     alerts := alerts st; requests := requests st |}.
Definition set_app (st : Studio) a : Studio :=
  {| text := text st; selectedVoice := selectedVoice st;
     selectedLang := selectedLang st; isGenerating := isGenerating st;
     isPreviewing := isPreviewing st; app := a;
     sampleCache := sampleCache st; player := player st;
     alerts := alerts st; requests := requests st |}.
Definition set_cache (st : Studio) c : Studio :=
  {| text := text st; selectedVoice := selectedVoice st;
     selectedLang := selectedLang st; isGenerating := isGenerating st;
     isPreviewing := isPreviewing st; app := app st;
     sampleCache := c; player := player st;
     alerts := alerts st; requests := requests st |}.
Definition set_player (st : Studio) p : Studio :=
  {| text := text st; selectedVoice := selectedVoice st;
     selectedLang := selectedLang st; isGenerating := isGenerating st;
     isPreviewing := isPreviewing st; app := app st;
     sampleCache := sampleCache st; player := p;
     alerts := alerts st; requests := requests st |}.
Definition add_alert (st : Studio) m : Studio :=
  {| text := text st; selectedVoice := selectedVoice st;
     selectedLang := selectedLang st; isGenerating := isGenerating st;
     isPreviewing := isPreviewing st; app := app st;
     sampleCache := sampleCache st; player := player st;
     alerts := alerts st ++ [m]; requests := requests st |}.
Definition add_request (st : Studio) rq : Studio :=
  {| text := text st; selectedVoice := selectedVoice st;
     selectedLang := selectedLang st; isGenerating := isGenerating st;
     isPreviewing := isPreviewing st; app := app st;
     sampleCache := sampleCache st; player := player st;
     alerts := alerts st; requests := requests st ++ [rq] |}.

(** [playFromBase64(a)] called from a handler; the microtasks it queues
    run before the next task. *)
Definition play (st : Studio) (a : string) : Studio :=
  set_player st (drain (playFromBase64 (player st) a)).

Definition isReadyToGenerate (st : Studio) : bool :=
  negb (trim_empty (text st)) && opt_truthy (selectedVoice st) &&
  opt_truthy (selectedLang st).

(** [voices.find(v => v.id === selectedVoice)?.label || selectedVoice],
    and the same for the language name. *)
Definition voiceLabel_of (v : string) : string :=
  match List.find (fun o => String.eqb (Catalogue.id o) v) Catalogue.voices with
  | Some o => if truthy (Catalogue.label o) then Catalogue.label o else v
  | None => v
  end.

Definition languageName_of (l : string) : string :=
  match List.find (fun o => String.eqb (Catalogue.code o) l) Catalogue.languages with
  | Some o => if truthy (Catalogue.name o) then Catalogue.name o else l
  | None => l
  end.

(** What the body of [generateTTS] has read when it reaches its
    [await]: the closure's [text], selection and [history]. *)
Record Pending := {
  p_text : string;
  p_voice : string;
  p_lang : string;
  p_history : list History.AudioHistoryItem
}.

(** [generateTTS] up to [await ai.models.generateContent(...)]. *)
Definition generateTTS_start (st : Studio) : Studio * option Pending :=
  if trim_empty (text st) || isGenerating st then (st, None)
  else match truthy_value (selectedVoice st), truthy_value (selectedLang st) with
       | Some v, Some l =>
           (add_request (set_generating st true) (text st, v),
            Some {| p_text := text st; p_voice := v; p_lang := l;
                    p_history := History.history (app st) |})
       | _, _ => (st, None)
       end.

Definition synthesis_failed : string := "Synthesis failed. Try again.".

Section Handlers.
Variable JSON_stringify : list History.AudioHistoryItem -> string.
Variable storage_fits : gmap string string -> bool.

(** The rest of [generateTTS] once the reply [r] arrives, at clock
    reading [now] with [toLocaleString()] text [stamp].  [saveToHistory]
    is the closure of the render that started the call, so it extends
    the [history] read then; [localStorage] is the page's current one.
    An exception of [saveToHistory] skips [playFromBase64] and goes to
    the [catch]: the alert; the history it set stays. *)
Definition generateTTS_finish (now : N) (stamp : string) (pd : Pending)
  (r : reply) (st : Studio) : Studio :=
  match r with
  | Rejected => set_generating (add_alert st synthesis_failed) false
  | Reply d =>
      match truthy_value d with
      | None => set_generating st false
      | Some a =>
          let item := Ids.newItem now (p_text pd) (p_voice pd)
                        (voiceLabel_of (p_voice pd)) (p_lang pd)
                        (languageName_of (p_lang pd)) stamp a in
          let (saved, thrown) :=
            History.saveToHistory JSON_stringify storage_fits
              {| History.history := p_history pd;
                 History.storage := History.storage (app st) |} item in
          match thrown with
          | None => set_generating (play (set_app st saved) a) false
          | Some _ => set_generating (add_alert (set_app st saved) synthesis_failed) false
          end
      end
  end.

End Handlers.

(** [languages.find(...)?.sampleText || "This is a voice sample."] *)
Definition sampleText_of (l : string) : string :=
  match List.find (fun o => String.eqb (Catalogue.code o) l) Catalogue.languages with
  | Some o => if truthy (Catalogue.sampleText o) then Catalogue.sampleText o
              else "This is a voice sample."
  | None => "This is a voice sample."
  end.

Definition select_language_first : string :=
  "Please select a Language Region first to hear the sample in that language!".

(** The cache slot a preview request fills when its reply arrives. *)
Record PendingPreview := { pv_voice : string; pv_lang : string }.

(** [playVoiceSample(voice)] up to its [await]: the language check, the
    busy check, a cache hit played at once, or the request. *)
Definition playVoiceSample_start (voice : Catalogue.VoiceOption) (st : Studio)
  : Studio * option PendingPreview :=
  match truthy_value (selectedLang st) with
  | None => (add_alert st select_language_first, None)
  | Some l =>
      if opt_truthy (isPreviewing st) then (st, None)
      else match truthy_value (cache_get (sampleCache st) (Catalogue.id voice) l) with
           | Some cachedAudio => (play st cachedAudio, None)
           | None =>
               (add_request (set_previewing st (Some (Catalogue.label voice)))
                  (sampleText_of l, Catalogue.id voice),
                Some {| pv_voice := Catalogue.id voice; pv_lang := l |})
           end
  end.

(** The rest of [playVoiceSample]: cache and play a non-empty payload;
    [finally] clears [isPreviewing]. *)
Definition playVoiceSample_finish (pp : PendingPreview) (r : reply) (st : Studio)
  : Studio :=
  match reply_audio r with
  | Some a =>
      set_previewing
        (play (set_cache st (cache_put (sampleCache st) (pv_voice pp) (pv_lang pp) a)) a)
        None
  | None => set_previewing st None
  end.

End Studio.

(* ------------------------------------------------------------------ *)
(** ** Runs of the playback controller, and sample editor states *)

Module PlaybackRuns.
Import Playback.

(** Runs in which the host never suspends the audio context. *)
Definition no_suspend (acts : list action) : bool :=
  forallb (fun a => match a with Suspend => false | _ => true end) acts.

End PlaybackRuns.

Module Scenarios.
Import Studio.

(** An editor with one archived entry, "Hello" typed, the voice id
    [Kore] and English (US) selected. *)
Definition demo_studio : Studio :=
  {| text := "Hello"; selectedVoice := Some "Kore"%string;
     selectedLang := Some "en-US"%string; isGenerating := false;
     isPreviewing := None;
     app := {| History.history := [History.sample_item]; History.storage := ∅ |};
     sampleCache := ∅; player := Playback.initial; alerts := []; requests := [] |}.

(** The same editor after the archive was wiped. *)
Definition demo_cleared : Studio :=
  set_app demo_studio (History.handleClearHistory (app demo_studio)).

Definition demo_pending : Pending :=
  {| p_text := "Hello"; p_voice := "Kore"; p_lang := "en-US";
     p_history := [History.sample_item] |}.

(** The sixth catalogue voice, Maya, whose id is [Kore]. *)
Definition maya : Catalogue.VoiceOption :=
  nth 5 Catalogue.voices (Catalogue.mkVoice "" "" "" "" "").

End Scenarios.

(* ================================================================== *)
(** * Properties *)

(* ------------------------------------------------------------------ *)
(** ** The container writer *)

Module WavProofs.
Import DataView Wav.

Lemma le_value_le32 (v : Z) : le_value (le32 v) = v mod 2 ^ 32.
Proof.
  unfold le32, ToUint32.
  assert (Hb : 0 <= v mod 2 ^ 32 < 2 ^ 32) by (apply Z.mod_pos_bound; lia).
  generalize dependent (v mod 2 ^ 32); intros x Hx.
  rewrite !Z.shiftr_div_pow2 by lia.
  change 255 with (Z.ones 8). rewrite !Z.land_ones by lia.
  simpl le_value. Z.div_mod_to_equations. lia.
Qed.

Lemma le_value_le16 (v : Z) : le_value (le16 v) = v mod 2 ^ 16.
Proof.
  unfold le16, ToUint16.
  assert (Hb : 0 <= v mod 2 ^ 16 < 2 ^ 16) by (apply Z.mod_pos_bound; lia).
  generalize dependent (v mod 2 ^ 16); intros x Hx.
  rewrite !Z.shiftr_div_pow2 by lia.
  change 255 with (Z.ones 8). rewrite !Z.land_ones by lia.
  simpl le_value. Z.div_mod_to_equations. lia.
Qed.

Section Fields.
Variables (pcmData : list Z) (sampleRate : Z).
Let blob := createWavBlob pcmData sampleRate.
Let len := Z.of_nat (length pcmData).

Lemma wav_header_length : length (wav_header pcmData sampleRate) = 44%nat.
Proof. reflexivity. Qed.

Lemma slice_4 : firstn 4 (skipn 4 blob) = le32 (36 + len).
Proof. reflexivity. Qed.
Lemma slice_24 : firstn 4 (skipn 24 blob) = le32 sampleRate.
Proof. reflexivity. Qed.
Lemma slice_28 : firstn 4 (skipn 28 blob) = le32 (sampleRate * 2).
Proof. reflexivity. Qed.
Lemma slice_40 : firstn 4 (skipn 40 blob) = le32 len.
Proof. reflexivity. Qed.

Lemma slice_20 : firstn 2 (skipn 20 blob) = le16 1.
Proof. reflexivity. Qed.
Lemma slice_22 : firstn 2 (skipn 22 blob) = le16 1.
Proof. reflexivity. Qed.
Lemma slice_32 : firstn 2 (skipn 32 blob) = le16 2.
Proof. reflexivity. Qed.
Lemma slice_34 : firstn 2 (skipn 34 blob) = le16 16.
Proof. reflexivity. Qed.
Lemma slice_16 : firstn 4 (skipn 16 blob) = le32 16.
Proof. reflexivity. Qed.

End Fields.

End WavProofs.

Module WavClaims.
Import DataView Wav WavProofs.

(** For every input, [createWavBlob pcmData sampleRate] is exactly
    [44 + length pcmData] bytes, a 44-byte header followed by [pcmData]
    unchanged.  The tags RIFF, WAVE, fmt  and data are stored
    character by character (big-endian); the numeric fields are
    little-endian 32-bit or 16-bit values: chunk size
    [(36 + length pcmData) mod 2^32], subchunk-1 size 16, audio format 1,
    channels 1, sample rate [sampleRate mod 2^32], byte rate
    [(sampleRate * 2) mod 2^32], block align 2, bits per sample 16, and
    subchunk-2 size [length pcmData mod 2^32]. *)
Theorem createWavBlob_layout (pcmData : list Z) (sampleRate : Z) :
  let blob := createWavBlob pcmData sampleRate in
  let len := Z.of_nat (length pcmData) in
  (length blob = 44 + length pcmData)%nat /\
  skipn 44 blob = pcmData /\
  firstn 4 blob = tag "RIFF" /\
  getUint blob 4 4 = (36 + len) mod 2 ^ 32 /\
  firstn 4 (skipn 8 blob) = tag "WAVE" /\
  firstn 4 (skipn 12 blob) = tag "fmt " /\
  getUint blob 16 4 = 16 /\
  getUint blob 20 2 = 1 /\
  getUint blob 22 2 = 1 /\
  getUint blob 24 4 = sampleRate mod 2 ^ 32 /\
  getUint blob 28 4 = (sampleRate * 2) mod 2 ^ 32 /\
  getUint blob 32 2 = 2 /\
  getUint blob 34 2 = 16 /\
  firstn 4 (skipn 36 blob) = tag "data" /\
  getUint blob 40 4 = len mod 2 ^ 32.
Proof.
  intros blob len; subst blob len. unfold getUint.
  rewrite slice_4, slice_16, slice_20, slice_22, slice_24, slice_28,
    slice_32, slice_34, slice_40, !le_value_le32, !le_value_le16.
  unfold createWavBlob.
  rewrite length_app, wav_header_length.
  repeat split; reflexivity.
Qed.

(** C1: on the inputs the code gives it, [createWavBlob pcmData
    sampleRate] is exactly [44 + length pcmData] bytes, a 44-byte header
    followed by [pcmData] unchanged, with the tags RIFF, WAVE, fmt  and
    data stored as big-endian ASCII and the little-endian fields holding
    exactly: chunk size [36 + length pcmData], subchunk-1 size 16, audio
    format 1, channels 1, sample rate [sampleRate], byte rate
    [sampleRate * 2], block align 2, bits per sample 16 and subchunk-2
    size [length pcmData].  The inputs are those whose values fit the
    32-bit fields: a sample rate with [0 <= sampleRate * 2 < 2^32] (the
    only call, in [downloadAudio], passes 24000) and fewer than
    [2^32 - 36] bytes (the output of [decode] on a JavaScript string). *)
Theorem createWavBlob_exact (pcmData : list Z) (sampleRate : Z)
  (Hrate : 0 <= sampleRate /\ sampleRate * 2 < 2 ^ 32)
  (Hlen : 36 + Z.of_nat (length pcmData) < 2 ^ 32) :
  let blob := createWavBlob pcmData sampleRate in
  let len := Z.of_nat (length pcmData) in
  (length blob = 44 + length pcmData)%nat /\
  skipn 44 blob = pcmData /\
  firstn 4 blob = tag "RIFF" /\
  getUint blob 4 4 = 36 + len /\
  firstn 4 (skipn 8 blob) = tag "WAVE" /\
  firstn 4 (skipn 12 blob) = tag "fmt " /\
  getUint blob 16 4 = 16 /\
  getUint blob 20 2 = 1 /\
  getUint blob 22 2 = 1 /\
  getUint blob 24 4 = sampleRate /\
  getUint blob 28 4 = sampleRate * 2 /\
  getUint blob 32 2 = 2 /\
  getUint blob 34 2 = 16 /\
  firstn 4 (skipn 36 blob) = tag "data" /\
  getUint blob 40 4 = len.
Proof.
  destruct (createWavBlob_layout pcmData sampleRate)
    as (H1 & H2 & H3 & H4 & H5 & H6 & H7 & H8 & H9 & H10 & H11 & H12 & H13 & H14 & H15).
  cbv zeta in *.
  rewrite H4, H10, H11, H15, !Z.mod_small by lia.
  repeat split; assumption || reflexivity.
Qed.

Lemma createWavBlob_exact_witness :
  (0 <= 24000 /\ 24000 * 2 < 2 ^ 32) /\
  36 + Z.of_nat (length [1; 2; 3; 4]) < 2 ^ 32 /\
  getUint (createWavBlob [1; 2; 3; 4] 24000) 4 4 = 40 /\
  getUint (createWavBlob [1; 2; 3; 4] 24000) 28 4 = 48000 /\
  skipn 44 (createWavBlob [1; 2; 3; 4] 24000) = [1; 2; 3; 4].
Proof.
  assert (Hr : 0 <= 24000 /\ 24000 * 2 < 2 ^ 32) by lia.
  assert (Hl : 36 + Z.of_nat (length [1; 2; 3; 4]) < 2 ^ 32) by (simpl; lia).
  destruct (createWavBlob_exact [1; 2; 3; 4] 24000 Hr Hl)
    as (_ & H2 & _ & H4 & _ & _ & _ & _ & _ & _ & H11 & _).
  split; [exact Hr|]. split; [exact Hl|].
  split; [exact H4|]. split; [exact H11 | exact H2].
Defined.

End WavClaims.
Module CodecTests.
Import JS Base64 Codec.
Example t1 : base64 [0; 0; 0; 64; 0; 192; 255; 127] = "AAAAQADA/38="%string.
Proof. vm_compute. reflexivity. Qed.
Example t2 : decodeSamples "AAAAQADA/38="%string = Ok [0; 16384; -16384; 32767].
Proof. vm_compute. reflexivity. Qed.
Example t3 : decodeSamples "AAAAQADA/w=="%string = Throw RangeError.
Proof. vm_compute. reflexivity. Qed.
End CodecTests.

Module CodecProofs.
Import JS Base64 Codec.

Definition is_byte (b : Z) : Prop := 0 <= b < 256.

(** Induction following the 3-byte groups of the encoder. *)
Lemma list_ind3 (P : list Z -> Prop) :
  P [] -> (forall a, P [a]) -> (forall a b, P [a; b]) ->
  (forall a b c r, P r -> P (a :: b :: c :: r)) -> forall l, P l.
Proof.
  intros H0 H1 H2 H3. fix IH 1.
  intros [|a [|b [|c r]]]; [exact H0 | apply H1 | apply H2 | apply H3, IH].
Qed.

(** The 64 alphabet characters, checked one by one. *)
Lemma b64char_spec (i : Z) :
  0 <= i < 64 ->
  b64val (b64char i) = Some i /\
  Ascii.eqb (b64char i) "="%char = false /\
  is_ascii_whitespace (b64char i) = false.
Proof.
  intros Hi. rewrite <- (Z2Nat.id i) by lia.
  assert (Hn : (Z.to_nat i < 64)%nat) by lia.
  generalize dependent (Z.to_nat i); intros n Hn.
  do 64 (destruct n as [|n]; [vm_compute; auto|]). lia.
Qed.

Lemma sextets_range (bs : list Z) :
  Forall is_byte bs -> Forall (fun v => 0 <= v < 64) (sextets bs).
Proof.
  induction bs as [|a|a b|a b c r IH] using list_ind3;
    intros Hb; unfold is_byte in *; repeat (match goal with
    | H : Forall _ (_ :: _) |- _ => inversion H; subst; clear H end);
    simpl sextets; repeat constructor;
    try (Z.div_mod_to_equations; lia).
  apply IH; assumption.
Qed.

Lemma traverse_b64_map (vs : list Z) :
  Forall (fun v => 0 <= v < 64) vs -> traverse_b64 (map b64char vs) = Some vs.
Proof.
  induction 1 as [|v vs Hv _ IH]; [reflexivity|].
  simpl. rewrite (proj1 (b64char_spec v Hv)), IH. reflexivity.
Qed.

Lemma decode_sextets_sextets (bs : list Z) :
  Forall is_byte bs -> decode_sextets (sextets bs) = bs.
Proof.
  induction bs as [|a|a b|a b c r IH] using list_ind3;
    intros Hb; unfold is_byte in *; repeat (match goal with
    | H : Forall _ (_ :: _) |- _ => inversion H; subst; clear H end).
  - reflexivity.
  - simpl. f_equal. Z.div_mod_to_equations; lia.
  - simpl. f_equal; [|f_equal]; Z.div_mod_to_equations; lia.
  - simpl sextets. simpl app. cbn [decode_sextets].
    rewrite IH by assumption. simpl app.
    f_equal; [|f_equal; [|f_equal]]; Z.div_mod_to_equations; lia.
Qed.

Lemma padding_cons3 (a b c : Z) (r : list Z) :
  padding (a :: b :: c :: r) = padding r.
Proof.
  unfold padding. cbn [length].
  replace (S (S (S (length r))) mod 3)%nat with (length r mod 3)%nat;
    [reflexivity|].
  replace (S (S (S (length r)))) with (length r + 1 * 3)%nat by lia.
  rewrite Nat.Div0.mod_add. reflexivity.
Qed.

Lemma padding_shape (bs : list Z) :
  padding bs = [] \/ padding bs = ["="%char; "="%char] \/
  padding bs = ["="%char].
Proof.
  unfold padding.
  destruct (length bs mod 3)%nat as [|[|[|n]]]; auto.
Qed.

Lemma sextets_length (bs : list Z) :
  ((length (sextets bs) + length (padding bs)) mod 4 = 0)%nat /\
  (length (sextets bs) mod 4 <> 1)%nat.
Proof.
  induction bs as [|a|a b|a b c r IH] using list_ind3.
  - split; [reflexivity | discriminate].
  - split; [reflexivity | discriminate].
  - split; [reflexivity | discriminate].
  - rewrite padding_cons3. cbn [sextets]. rewrite length_app.
    cbn [length]. destruct IH as [IH1 IH2].
    replace (4 + length (sextets r))%nat with (length (sextets r) + 1 * 4)%nat
      by lia.
    rewrite <- Nat.add_assoc, (Nat.add_comm (1 * 4)), Nat.add_assoc,
      !Nat.Div0.mod_add.
    split; assumption.
Qed.

Lemma filter_keep {A} (f : A -> bool) (l : list A) :
  (forall x, In x l -> f x = true) -> List.filter f l = l.
Proof.
  induction l as [|x l IH]; intros Hl; [reflexivity|]. simpl.
  rewrite Hl by (left; reflexivity). f_equal. apply IH.
  intros y Hy. apply Hl. right. exact Hy.
Qed.

Lemma in_encoded (bs : list Z) (c : ascii) :
  Forall is_byte bs -> In c (map b64char (sextets bs)) ->
  Ascii.eqb c "="%char = false /\ is_ascii_whitespace c = false.
Proof.
  intros Hb Hc. apply in_map_iff in Hc as [v [<- Hv]].
  pose proof (sextets_range bs Hb) as Hr. rewrite List.Forall_forall in Hr.
  pose proof (b64char_spec v (Hr v Hv)) as (_ & H1 & H2). auto.
Qed.

Lemma strip_padding_base64 (bs : list Z) :
  Forall is_byte bs ->
  strip_padding (map b64char (sextets bs) ++ padding bs)
  = map b64char (sextets bs).
Proof.
  intros Hb. unfold strip_padding.
  rewrite length_app, length_map, (proj1 (sextets_length bs)). cbn.
  set (X := map b64char (sextets bs)).
  assert (HX : forall c, In c (rev X) -> Ascii.eqb c "="%char = false).
  { intros c Hc. apply in_rev in Hc. apply (in_encoded bs c Hb Hc). }
  destruct (padding_shape bs) as [-> | [-> | ->]].
  - rewrite app_nil_r. destruct (rev X) as [|c r] eqn:E; [reflexivity|].
    rewrite (HX c) by (left; reflexivity). reflexivity.
  - rewrite rev_app_distr. cbn. apply rev_involutive.
  - rewrite rev_app_distr. cbn.
    destruct (rev X) as [|c r] eqn:E.
    + symmetry. apply (f_equal (@rev ascii)) in E.
      rewrite rev_involutive in E. exact E.
    + rewrite (HX c) by (left; reflexivity).
      rewrite <- E. apply rev_involutive.
Qed.

(** [atob] undoes the encoder on every byte sequence. *)
Lemma atob_base64 (bs : list Z) :
  Forall is_byte bs ->
  atob (base64 bs) = Ok (string_of_list_ascii (map byte_char bs)).
Proof.
  intros Hb. unfold atob, base64.
  rewrite list_ascii_of_string_of_list_ascii.
  rewrite filter_keep.
  2:{ intros c Hc. apply in_app_or in Hc as [Hc | Hc].
      - rewrite (proj2 (in_encoded bs c Hb Hc)). reflexivity.
      - destruct (padding_shape bs) as [E | [E | E]]; rewrite E in Hc;
          simpl in Hc; intuition subst; reflexivity. }
  rewrite strip_padding_base64 by exact Hb.
  rewrite length_map.
  destruct (Nat.eqb_spec (length (sextets bs) mod 4) 1) as [E|_].
  { exfalso. exact (proj2 (sextets_length bs) E). }
  rewrite traverse_b64_map by (apply sextets_range, Hb).
  rewrite decode_sextets_sextets by exact Hb. reflexivity.
Qed.

Lemma decode_base64 (bs : list Z) :
  Forall is_byte bs -> decode (base64 bs) = Ok bs.
Proof.
  intros Hb. unfold decode. rewrite atob_base64 by exact Hb. f_equal.
  rewrite list_ascii_of_string_of_list_ascii, map_map.
  induction Hb as [|b bs Hb1 _ IH]; [reflexivity|]. simpl. rewrite IH.
  f_equal. unfold ToUint8, charCodeAt, byte_char, is_byte in *.
  rewrite nat_ascii_embedding by lia. rewrite Z2Nat.id by lia.
  apply Z.mod_small. lia.
Qed.

Lemma list_ind2 (P : list Z -> Prop) :
  P [] -> (forall a, P [a]) ->
  (forall a b r, P r -> P (a :: b :: r)) -> forall l, P l.
Proof.
  intros H0 H1 H2. fix IH 1.
  intros [|a [|b r]]; [exact H0 | apply H1 | apply H2, IH].
Qed.

Lemma int16_bytes_le (bs : list Z) :
  Forall is_byte bs -> Nat.even (length bs) = true ->
  int16_bytes (int16_le bs) = bs.
Proof.
  induction bs as [|lo|lo hi bs IH] using list_ind2; intros Hb He;
    [reflexivity | discriminate |].
  inversion Hb as [|? ? Hlo Hb1]; inversion Hb1 as [|? ? Hhi Hb2]; subst.
  cbn [int16_le int16_bytes]. unfold is_byte in *.
  rewrite IH by assumption.
  f_equal; [|f_equal]; destruct (Z.leb_spec 32768 (lo + 256 * hi));
    Z.div_mod_to_equations; lia.
Qed.

End CodecProofs.

Module CodecClaims.
Import JS Base64 Codec CodecProofs.

(** C2: for every even-length byte buffer [B], decoding its base64 text
    to samples ([decode] followed by the [Int16Array] view of
    [decodeAudioData]) gives exactly the signed 16-bit little-endian
    samples of [B]; these samples determine [B] again, so nothing is
    lost. *)
Theorem decodeSamples_base64_roundtrip (B : list Z)
  (Hbytes : Forall (fun b => 0 <= b < 256) B)
  (Heven : Nat.even (length B) = true) :
  decodeSamples (base64 B) = Ok (int16_le B) /\ int16_bytes (int16_le B) = B.
Proof.
  split; [|exact (int16_bytes_le B Hbytes Heven)].
  unfold decodeSamples. rewrite decode_base64 by exact Hbytes.
  unfold Int16Array_of_buffer.
  destruct (proj1 (Nat.even_spec (length B)) Heven) as [k Hk].
  rewrite Hk, Nat.mul_comm, Nat.Div0.mod_mul. reflexivity.
Qed.

Lemma decodeSamples_base64_roundtrip_witness :
  Forall (fun b => 0 <= b < 256) [0; 0; 0; 64; 0; 192; 255; 127] /\
  Nat.even (length [0; 0; 0; 64; 0; 192; 255; 127]) = true /\
  decodeSamples (base64 [0; 0; 0; 64; 0; 192; 255; 127])
    = Ok (int16_le [0; 0; 0; 64; 0; 192; 255; 127]) /\
  int16_bytes (int16_le [0; 0; 0; 64; 0; 192; 255; 127])
    = [0; 0; 0; 64; 0; 192; 255; 127].
Proof.
  assert (Hb : Forall (fun b => 0 <= b < 256) [0; 0; 0; 64; 0; 192; 255; 127])
    by (repeat constructor; lia).
  split; [exact Hb|]. split; [reflexivity|].
  apply (decodeSamples_base64_roundtrip _ Hb). reflexivity.
Defined.

(** C5: whenever the base64 text decodes to an odd number of bytes, the
    sample decoding throws (the [RangeError] of the [Int16Array]
    constructor, the codec's malformed-payload failure) and yields no
    samples. *)
Theorem decodeSamples_odd_length (s : string) (data : list Z)
  (Hdecode : decode s = Ok data)
  (Hodd : Nat.odd (length data) = true) :
  decodeSamples s = Throw RangeError.
Proof.
  unfold decodeSamples. rewrite Hdecode. unfold Int16Array_of_buffer.
  destruct (proj1 (Nat.odd_spec (length data)) Hodd) as [k Hk].
  rewrite Hk, Nat.add_comm, Nat.mul_comm, Nat.Div0.mod_add. reflexivity.
Qed.

Lemma decodeSamples_odd_length_witness :
  decode "AAAAQADA/w=="%string = Ok [0; 0; 0; 64; 0; 192; 255] /\
  Nat.odd (length [0; 0; 0; 64; 0; 192; 255]) = true /\
  decodeSamples "AAAAQADA/w=="%string = Throw RangeError.
Proof.
  assert (Hd : decode "AAAAQADA/w=="%string = Ok [0; 0; 0; 64; 0; 192; 255])
    by (vm_compute; reflexivity).
  split; [exact Hd|]. split; [reflexivity|].
  apply (decodeSamples_odd_length _ _ Hd). reflexivity.
Defined.

End CodecClaims.

Module HistoryProofs.
Import JS History.

Lemma firstn_app_firstn {A} (n : nat) (l m : list A) :
  firstn n (l ++ firstn n m) = firstn n (l ++ m).
Proof.
  rewrite !firstn_app, firstn_firstn.
  f_equal. f_equal. lia.
Qed.

(** Whether [setItem] throws or not, [saveToHistory] sets the history
    to the first 50 of the new entry and the old history. *)
Lemma saveToHistory_history (stringify : list AudioHistoryItem -> string)
  (fits : gmap string string -> bool) (st : AppState) (it : AudioHistoryItem) :
  history (fst (saveToHistory stringify fits st it)) = firstn 50 (it :: history st).
Proof.
  unfold saveToHistory.
  destruct (setItem fits (storage st) HISTORY_KEY _); reflexivity.
Qed.

(** Successive appends after a first one keep the first 50 of the
    newest-first sequence. *)
Lemma history_appends (stringify : list AudioHistoryItem -> string)
  (fits : gmap string string -> bool)
  (items : list AudioHistoryItem) (st : AppState) (it : AudioHistoryItem) :
  history (fold_left (fun s i => fst (saveToHistory stringify fits s i)) items
             (fst (saveToHistory stringify fits st it)))
  = firstn 50 (rev items ++ it :: history st).
Proof.
  revert st it. induction items as [|x rest IH]; intros st it.
  - apply saveToHistory_history.
  - simpl fold_left. rewrite IH. rewrite saveToHistory_history.
    change (rev (x :: rest)) with (rev rest ++ [x]).
    rewrite <- (firstn_app_firstn 50 (rev rest ++ [x])), <- !app_assoc.
    reflexivity.
Qed.

End HistoryProofs.

Module HistoryClaims.
Import JS History HistoryProofs.

(** C3: [saveToHistory] prepends and keeps the first 50 entries, whether
    or not its [setItem] throws; after 51 successive appends, from any
    state, the history holds exactly 50 entries: the 50 most recently
    appended ([skipn 1 items]), newest first. *)
Theorem saveToHistory_51 (stringify : list AudioHistoryItem -> string)
  (fits : gmap string string -> bool)
  (st : AppState) (items : list AudioHistoryItem)
  (H51 : length items = 51%nat) :
  (forall s it, history (fst (saveToHistory stringify fits s it))
                = firstn 50 (it :: history s)) /\
  let st' := fold_left (fun s it => fst (saveToHistory stringify fits s it)) items st in
  length (history st') = 50%nat /\
  history st' = rev (skipn 1 items).
Proof.
  split; [apply saveToHistory_history|]. simpl.
  destruct items as [|i0 rest]; [discriminate|].
  simpl in H51. simpl fold_left. rewrite history_appends. simpl skipn.
  assert (Hl : length (rev rest) = 50%nat) by (rewrite length_rev; lia).
  rewrite firstn_app, Hl, Nat.sub_diag, firstn_O, app_nil_r,
    firstn_all2 by lia.
  split; [exact Hl | reflexivity].
Qed.

Lemma saveToHistory_51_witness :
  length (repeat sample_item 51) = 51%nat /\
  let st' := fold_left (fun s it => fst (saveToHistory (fun _ => "[]"%string)
                                            (fun _ => true) s it))
               (repeat sample_item 51) {| history := []; storage := ∅ |} in
  length (history st') = 50%nat /\
  history st' = rev (skipn 1 (repeat sample_item 51)).
Proof.
  split; [reflexivity|].
  exact (proj2 (saveToHistory_51 (fun _ => "[]"%string) (fun _ => true)
    {| history := []; storage := ∅ |} (repeat sample_item 51) eq_refl)).
Defined.

(** C7: [handleClearHistory] empties the history and removes the stored
    record (no empty array is written); loading afterwards gives the empty
    history, exactly as from a store that never held a record. *)
Theorem clear_then_load (JSON_parse : string -> result jsvalue) (st : AppState) :
  let st' := handleClearHistory st in
  history st' = [] /\
  storage st' !! HISTORY_KEY = None /\
  load JSON_parse (storage st') = Ok (JItems [], []) /\
  load JSON_parse (storage st') = load JSON_parse ∅.
Proof.
  simpl. unfold load. rewrite lookup_delete_eq, lookup_empty.
  repeat split; reflexivity.
Qed.

(** C8: loading never throws, whatever the stored text; when the record
    is absent or [JSON.parse] rejects it, the history is the empty one,
    and the only effect of a failure is one [console.error] line. *)
Theorem load_fails_soft (JSON_parse : string -> result jsvalue)
  (store : gmap string string) :
  exists v logs,
    load JSON_parse store = Ok (v, logs) /\
    (logs = [] \/ logs = ["Failed to parse history"%string]) /\
    ((store !! HISTORY_KEY = None \/
      exists saved e, store !! HISTORY_KEY = Some saved /\
                      JSON_parse saved = Throw e) ->
     v = JItems []).
Proof.
  unfold load.
  destruct (store !! HISTORY_KEY) as [saved|] eqn:Hs.
  - destruct (String.eqb saved "").
    + exists (JItems []), []. auto.
    + destruct (JSON_parse saved) as [v|e] eqn:Hp.
      * exists v, []. split; [reflexivity|]. split; [left; reflexivity|].
        intros [Hn | (saved' & e & Hs' & Hp')]; [discriminate|].
        injection Hs' as <-. congruence.
      * exists (JItems []), ["Failed to parse history"%string]. auto.
  - exists (JItems []), []. auto.
Qed.

End HistoryClaims.

Module CacheProofs.
Import SampleCache.

Lemma cacheKey_inj (v1 l1 v2 l2 : string) :
  no_dash v1 = true -> no_dash v2 = true ->
  cacheKey v1 l1 = cacheKey v2 l2 -> v1 = v2 /\ l1 = l2.
Proof.
  unfold cacheKey, no_dash. revert v2.
  induction v1 as [|a v1 IH]; intros [|b v2] H1 H2 Heq; simpl in *.
  - injection Heq as ->. auto.
  - injection Heq as <- _. discriminate.
  - injection Heq as -> _. apply andb_prop in H1 as [H1 _]. discriminate.
  - injection Heq as <- Heq.
    apply andb_prop in H1 as [_ H1]. apply andb_prop in H2 as [_ H2].
    destruct (IH v2 H1 H2 Heq) as [-> ->]. auto.
Qed.

End CacheProofs.

Module CacheClaims.
Import SampleCache CacheProofs.

(** The cache is keyed by the string [v-l].  After
    [put(v, l, p)], [get(v, l)] is [p]; a get on the empty cache is
    absent; a get for any other pair reads the put value exactly when
    its key string is the same and otherwise sees the cache as before;
    when neither voice id contains [-], as for every voice of the
    catalogue, distinct pairs never share a slot. *)
Theorem cache_put_get (c : Cache) (v l p : string) :
  cache_get (cache_put c v l p) v l = Some p /\
  cache_get ∅ v l = None /\
  (forall v' l', cache_get (cache_put c v l p) v' l'
     = if String.eqb (cacheKey v l) (cacheKey v' l') then Some p
       else cache_get c v' l') /\
  (forall v' l', no_dash v = true -> no_dash v' = true ->
     (v, l) <> (v', l') ->
     cache_get (cache_put c v l p) v' l' = cache_get c v' l') /\
  Forall (fun v => no_dash v = true) voice_ids.
Proof.
  unfold cache_get, cache_put.
  split; [apply lookup_insert_eq|]. split; [apply lookup_empty|].
  assert (Hgen : forall v' l', <[cacheKey v l := p]> c !! cacheKey v' l'
     = if String.eqb (cacheKey v l) (cacheKey v' l') then Some p
       else c !! cacheKey v' l').
  { intros v' l'. destruct (String.eqb_spec (cacheKey v l) (cacheKey v' l'))
      as [E|E].
    - rewrite E. apply lookup_insert_eq.
    - apply lookup_insert_ne. exact E. }
  split; [exact Hgen|]. split.
  - intros v' l' Hv Hv' Hne. rewrite Hgen.
    destruct (String.eqb_spec (cacheKey v l) (cacheKey v' l')) as [E|E];
      [|reflexivity].
    destruct (cacheKey_inj v l v' l' Hv Hv' E) as [-> ->].
    exfalso. apply Hne. reflexivity.
  - repeat constructor.
Qed.

(** No voice id of the catalogue contains the separator. *)
Lemma catalogue_no_dash (v : string) :
  In v (map Catalogue.id Catalogue.voices) -> no_dash v = true.
Proof.
  intros Hv. simpl in Hv.
  repeat (destruct Hv as [<- | Hv]; [reflexivity|]). contradiction.
Qed.

Lemma fill_other (puts : list (string * string * string)) (c : Cache) (v' l' : string) :
  In v' (map Catalogue.id Catalogue.voices) ->
  Forall (fun '(v0, _, _) => In v0 (map Catalogue.id Catalogue.voices)) puts ->
  ~ In (v', l') (map (fun '(v0, l0, _) => (v0, l0)) puts) ->
  fold_left (fun c '(v, l, p) => cache_put c v l p) puts c !! cacheKey v' l'
  = c !! cacheKey v' l'.
Proof.
  intros Hv'. revert c. induction puts as [|[[v0 l0] p0] rest IH]; intros c Hf Hn;
    [reflexivity|].
  inversion Hf as [|? ? H0 Hr]; subst. simpl in Hn |- *.
  rewrite IH by (exact Hr || tauto).
  pose proof (proj1 (proj2 (proj2 (proj2 (cache_put_get c v0 l0 p0))))
                v' l' (catalogue_no_dash v0 H0) (catalogue_no_dash v' Hv')) as Hc.
  apply Hc. intros E. apply Hn. left. exact E.
Qed.

(** C6: for the voices of the catalogue, the cache behaves as a map on
    ordered pairs.  After [put(v, l, p)], [get(v, l)] is exactly [p]; a
    put for [(v, l)] is never seen through a get for another pair
    [(v', l')]; and in the cache filled by any sequence of previews, a
    get on a pair that was never put is absent.  The voice ids reach
    the cache only from the catalogue ([voice.id] of [voices]). *)
Theorem cache_catalogue_pairs (c : Cache) (v l p v' l' : string)
  (puts : list (string * string * string))
  (Hv : In v (map Catalogue.id Catalogue.voices))
  (Hv' : In v' (map Catalogue.id Catalogue.voices))
  (Hputs : Forall (fun '(v0, _, _) => In v0 (map Catalogue.id Catalogue.voices)) puts) :
  cache_get (cache_put c v l p) v l = Some p /\
  ((v, l) <> (v', l') -> cache_get (cache_put c v l p) v' l' = cache_get c v' l') /\
  (~ In (v', l') (map (fun '(v0, l0, _) => (v0, l0)) puts) ->
   cache_get (fill puts) v' l' = None).
Proof.
  destruct (cache_put_get c v l p) as (H1 & _ & _ & H4 & _).
  split; [exact H1|]. split.
  - apply H4; apply catalogue_no_dash; assumption.
  - intros Hn. unfold cache_get, fill. rewrite fill_other by assumption.
    apply lookup_empty.
Qed.

Lemma cache_catalogue_pairs_witness :
  cache_get (cache_put ∅ "Kore" "en-US" "AAAA") "Kore" "en-US" = Some "AAAA"%string /\
  cache_get (cache_put ∅ "Kore" "en-US" "AAAA") "Kore" "en-GB" = None /\
  cache_get (fill [("Kore", "en-US", "AAAA")]%string) "Puck" "en-US" = None.
Proof.
  destruct (cache_catalogue_pairs ∅ "Kore" "en-US" "AAAA" "Kore" "en-GB"
              [("Kore", "en-US", "AAAA")]%string) as (H1 & H2 & _).
  - simpl. auto.
  - simpl. auto.
  - constructor; [simpl; auto | constructor].
  - destruct (cache_catalogue_pairs ∅ "Kore" "en-US" "AAAA" "Puck" "en-US"
                [("Kore", "en-US", "AAAA")]%string) as (_ & _ & H3).
    + simpl. auto.
    + simpl. auto 10.
    + constructor; [simpl; auto | constructor].
    + split; [exact H1|]. split.
      * rewrite H2 by (intros E; discriminate E). apply lookup_empty.
      * apply H3. simpl. intros [E | []]. discriminate E.
Defined.

End CacheClaims.

Module IdClaims.
Import History Ids.

Lemma number_of_id_of_clock (now : N) : number_of_id (id_of_clock now) = Some now.
Proof.
  unfold number_of_id, id_of_clock.
  assert (Hnil : N.to_uint now <> Decimal.Nil).
  { rewrite <- (DecimalN.Unsigned.of_to now), DecimalN.Unsigned.to_of.
    apply DecimalFacts.unorm_nonnil. }
  rewrite NilZero.usu by exact Hnil. simpl.
  rewrite DecimalN.Unsigned.of_to. reflexivity.
Qed.

(** C9 (as stated, refuted): two entries made at the same clock reading
    are distinct but have the same identifier. *)
Lemma same_clock_same_id :
  let e1 := newItem 1700000000000 "Hello" "Kore" "Evelyn" "en-US"
              "English (US)" "t" "AAAA" in
  let e2 := newItem 1700000000000 "Goodbye" "Kore" "Evelyn" "en-US"
              "English (US)" "t" "AAAA" in
  e1 <> e2 /\ id e1 = id e2.
Proof. simpl. split; [discriminate | reflexivity]. Qed.

(** C9 (amended): the identifier of an entry is the decimal text of the
    clock reading [Date.now()] at its creation: its numeric value is that
    reading, so two entries have the same identifier exactly when they
    were made at the same reading, and a later identifier is numerically
    larger exactly when the clock reading is larger. *)
Theorem newItem_id_clock (now1 now2 : N)
  (text1 text2 voice1 voice2 label1 label2 lang1 lang2 name1 name2
   stamp1 stamp2 audio1 audio2 : string) :
  let e1 := newItem now1 text1 voice1 label1 lang1 name1 stamp1 audio1 in
  let e2 := newItem now2 text2 voice2 label2 lang2 name2 stamp2 audio2 in
  number_of_id (id e1) = Some now1 /\
  number_of_id (id e2) = Some now2 /\
  (id e1 = id e2 <-> now1 = now2).
Proof.
  simpl. rewrite !number_of_id_of_clock.
  split; [reflexivity|]. split; [reflexivity|]. split.
  - intros E. apply (f_equal number_of_id) in E.
    rewrite !number_of_id_of_clock in E. congruence.
  - intros ->. reflexivity.
Qed.

End IdClaims.

Module PlaybackTests.
Import JS Playback.
Example t_seq :
  let st := exec [Play "AAAAQADA/38="; Play "AAAAQADA/38="; RunTask] in
  fired st = [0%nat] /\ isPlaying st = false /\ live_nodes st = [1%nat].
Proof. vm_compute. auto. Qed.
End PlaybackTests.

Module PlaybackProofs.
Import JS Playback.

(** Every node ever created has been started, and [sourceNodeRef]
    points at one of them. *)
Definition Inv (st : Player) : Prop :=
  Forall (fun nd => started nd = true) (nodes st) /\
  (forall n, sourceNodeRef st = Some n -> (n < length (nodes st))%nat).

Lemma Inv_initial : Inv initial.
Proof. split; [constructor | discriminate]. Qed.

Ltac inv_fields :=
  repeat match goal with
  | H : Inv ?st |- Inv _ => destruct H as [?Hs ?Hr]
  end;
  split; simpl; auto.

Lemma stopNode_Inv (st s : Player) (n : nat) :
  Inv st -> stopNode st n = Ok s -> Inv s.
Proof.
  intros [Hs Hr] E. unfold stopNode in E.
  destruct (nodes st !! n) as [nd|]; [|injection E as <-; split; auto].
  destruct (negb (started nd)); [discriminate|].
  destruct (stopped nd); injection E as <-; [split; auto|].
  split; simpl.
  - apply Forall_insert; [exact Hs | reflexivity].
  - intros m Hm. rewrite length_insert. auto.
Qed.

Lemma stopNode_no_throw (st : Player) (n : nat) :
  Inv st -> exists s, stopNode st n = Ok s.
Proof.
  intros [Hs _]. unfold stopNode.
  destruct (nodes st !! n) as [nd|] eqn:E; [|eauto].
  rewrite (Forall_lookup_1 _ _ _ _ Hs E). simpl.
  destruct (stopped nd); eauto.
Qed.

Lemma after_resume_Inv (st : Player) (p : string) : Inv st -> Inv (after_resume st p).
Proof. intros [Hs Hr]. split; assumption. Qed.

Lemma playFromBase64_Inv (st : Player) (p : string) :
  Inv st -> Inv (playFromBase64 st p).
Proof.
  intros H. unfold playFromBase64.
  assert (H1 : Inv (match sourceNodeRef st with
                    | None => st
                    | Some n => match stopNode st n with
                                | Ok s => s | Throw _ => st end
                    end)).
  { destruct (sourceNodeRef st) as [n|]; [|exact H].
    destruct (stopNode st n) as [s|e] eqn:E; [|exact H].
    exact (stopNode_Inv _ _ _ H E). }
  revert H1. generalize (match sourceNodeRef st with
                    | None => st
                    | Some n => match stopNode st n with
                                | Ok s => s | Throw _ => st end
                    end). intros [ns r b c ms ts fs] [Hs Hr].
  cbv [after_resume with_ctx with_tasks with_micro] in *; simpl in *.
  destruct c as [[|]|]; split; assumption.
Qed.

Lemma run_micro_Inv (st : Player) (m : micro) : Inv st -> Inv (run_micro st m).
Proof.
  intros [Hs Hr]. destruct m as [[[|x xs]|e]]; try (split; assumption).
  split; simpl.
  - apply Forall_app_2; [exact Hs | constructor; [reflexivity | constructor]].
  - intros m E. injection E as <-. rewrite length_app. simpl. lia.
Qed.

Lemma drain_Inv (st : Player) : Inv st -> Inv (drain st).
Proof.
  intros H. unfold drain.
  assert (H0 : Inv (with_micro st [])) by (destruct H; split; assumption).
  revert H0. generalize (with_micro st []).
  induction (microtasks st) as [|m ms IH]; intros s Hs; simpl.
  - exact Hs.
  - apply IH, run_micro_Inv, Hs.
Qed.

Lemma run_task_Inv (st : Player) : Inv st -> Inv (run_task st).
Proof.
  intros [Hs Hr]. unfold run_task.
  destruct (tasks st) as [|[n|p] ts]; split; assumption.
Qed.

Lemma finish_Inv (st : Player) (n : nat) : Inv st -> Inv (finish st n).
Proof.
  intros [Hs Hr]. unfold finish.
  destruct (nodes st !! n) as [nd|]; [|split; assumption].
  destruct (started nd && negb (stopped nd)); [|split; assumption].
  split; simpl.
  - apply Forall_insert; [exact Hs | reflexivity].
  - intros m Hm. rewrite length_insert. auto.
Qed.

Lemma exec_action_Inv (st : Player) (a : action) :
  Inv st -> Inv (exec_action st a).
Proof.
  intros H. unfold exec_action. apply drain_Inv.
  destruct a as [p| | |n|]; simpl.
  - apply playFromBase64_Inv, H.
  - unfold stopButton.
    destruct (sourceNodeRef st) as [n|]; [|destruct H; split; assumption].
    destruct (stopNode st n) as [s|e] eqn:E; [|exact H].
    destruct (stopNode_Inv _ _ _ H E). split; assumption.
  - apply run_task_Inv, H.
  - apply finish_Inv, H.
  - unfold suspend. destruct (audioContext st); destruct H; split; assumption.
Qed.

Lemma exec_Inv (acts : list action) : Inv (exec acts).
Proof.
  unfold exec. generalize Inv_initial. generalize initial.
  induction acts as [|a acts IH]; intros st H; simpl; [exact H|].
  apply IH, exec_action_Inv, H.
Qed.

Lemma live_nodes_In (st : Player) (n : nat) (nd : SourceNode) :
  nodes st !! n = Some nd -> live nd = true -> In n (live_nodes st).
Proof.
  intros E L. unfold live_nodes. apply filter_In. split.
  - apply in_seq. apply lookup_lt_Some in E. lia.
  - rewrite E. exact L.
Qed.

Lemma with_playing_same (st : Player) :
  isPlaying st = false -> with_playing st false = st.
Proof. destruct st; simpl. intros ->. reflexivity. Qed.

End PlaybackProofs.

Module PlaybackClaims.
Import JS Playback PlaybackProofs.

(** C4 (claim refuted; a defect of [playFromBase64]): [play(p1)] then
    [play(p2)] while [p1] plays.  The stop of [p1]'s node queues its
    [ended] event, and [p1]'s [onended] (never cleared) runs after [p2]
    has started: it is recorded in [fired] and sets [isPlaying] to
    false while [p2]'s node plays.  Second run: after the host
    suspended the audio context, two calls in a row both wait on
    [ctx.resume()] before [sourceNodeRef] is set, and two nodes end up
    playing at once. *)
Theorem play_preempt_runs_old_onended :
  let st := exec [Play "AAAAQADA/38="; Play "AAA="; RunTask] in
  fired st = [0%nat] /\ isPlaying st = false /\ live_nodes st = [1%nat] /\
  let st2 := exec [Play "AAAAQADA/38="; Finish 0; RunTask; Suspend;
                   Play "AAAAQADA/38="; Play "AAA="; RunTask; RunTask] in
  live_nodes st2 = [1%nat; 2%nat].
Proof. vm_compute. auto. Qed.

(** C10: from every reachable state the stop button does not throw and
    leaves [isPlaying] false; stopping the node in [sourceNodeRef], ended
    or not, never throws (also inside [playFromBase64]); and when the
    controller is idle (no node playing, [isPlaying] false) the stop
    button changes nothing. *)
Theorem stop_never_raises (acts : list action) :
  let st := exec acts in
  (exists st', stopButton st = Ok st' /\ isPlaying st' = false) /\
  (forall n, sourceNodeRef st = Some n -> exists st', stopNode st n = Ok st') /\
  (isPlaying st = false -> live_nodes st = [] -> stopButton st = Ok st).
Proof.
  intros st. pose proof (exec_Inv acts) as H. fold st in H.
  split; [|split].
  - unfold stopButton. destruct (sourceNodeRef st) as [n|].
    + destruct (stopNode_no_throw st n H) as [s ->]. eexists. split; reflexivity.
    + eexists. split; reflexivity.
  - intros n _. apply stopNode_no_throw, H.
  - intros Hp Hl. unfold stopButton.
    destruct (sourceNodeRef st) as [n|];
      [|rewrite with_playing_same by exact Hp; reflexivity].
    unfold stopNode. destruct (nodes st !! n) as [nd|] eqn:E;
      [|rewrite with_playing_same by exact Hp; reflexivity].
    rewrite (Forall_lookup_1 _ _ _ _ (proj1 H) E). simpl.
    destruct (stopped nd) eqn:Es;
      [rewrite with_playing_same by exact Hp; reflexivity|].
    exfalso. assert (Hin : In n (live_nodes st)).
    { apply (live_nodes_In st n nd E). unfold live.
      rewrite (Forall_lookup_1 _ _ _ _ (proj1 H) E), Es. reflexivity. }
    rewrite Hl in Hin. exact Hin.
Qed.

End PlaybackClaims.

(* ------------------------------------------------------------------ *)
(** ** The archive handlers together *)

Module ArchiveFacts.
Import JS History Archive.

(** The stored record mirrors the history: absent with an empty history,
    or the serialised history. *)
Definition Synced (stringify : list AudioHistoryItem -> string) (st : AppState)
  : Prop :=
  (storage st !! HISTORY_KEY = None /\ history st = []) \/
  storage st !! HISTORY_KEY = Some (stringify (history st)).

(** [setItem] stores the value and touches no other key, or throws
    [QuotaExceededError]. *)
Lemma setItem_cases (fits : gmap string string -> bool)
  (store : gmap string string) (k v : string) :
  (exists store', setItem fits store k v = Ok store' /\ store' !! k = Some v /\
     forall k', k' <> k -> store' !! k' = store !! k') \/
  setItem fits store k v = Throw QuotaExceededError.
Proof.
  unfold setItem. destruct (decide (store !! k = Some v)) as [E|_].
  - left. exists store. auto.
  - destruct (fits (<[k:=v]> store)); [left | right; reflexivity].
    exists (<[k:=v]> store). split; [reflexivity|]. split.
    + apply lookup_insert_eq.
    + intros k' Hk. apply lookup_insert_ne. congruence.
Qed.

(** One handler: it stores the new history, or throws
    [QuotaExceededError] and leaves the storage as it was; it never
    touches another key. *)
Lemma apply_op_cases stringify fits st op :
  let r := apply_op stringify fits st op in
  ((snd r = None /\ Synced stringify (fst r)) \/
   (snd r = Some QuotaExceededError /\ storage (fst r) = storage st)) /\
  (forall k, k <> HISTORY_KEY -> storage (fst r) !! k = storage st !! k).
Proof.
  cbv zeta. destruct op as [item|i|]; simpl.
  - unfold saveToHistory.
    destruct (setItem_cases fits (storage st) HISTORY_KEY
                (stringify (firstn 50 (item :: history st))))
      as [(store' & -> & Hk & Ho) | ->]; simpl.
    + split; [left; split; [reflexivity | right; exact Hk]|]. exact Ho.
    + split; [right; split; reflexivity | reflexivity].
  - unfold deleteHistoryItem.
    destruct (setItem_cases fits (storage st) HISTORY_KEY
                (stringify (List.filter (fun h => negb (String.eqb (id h) i))
                                        (history st))))
      as [(store' & -> & Hk & Ho) | ->]; simpl.
    + split; [left; split; [reflexivity | right; exact Hk]|]. exact Ho.
    + split; [right; split; reflexivity | reflexivity].
  - split.
    + left. split; [reflexivity|]. left. split; [apply lookup_delete_eq | reflexivity].
    + intros k Hk. apply lookup_delete_ne. congruence.
Qed.

Lemma run_ops_cons stringify fits op ops st :
  run_ops stringify fits (op :: ops) st
  = (fst (run_ops stringify fits ops (fst (apply_op stringify fits st op))),
     option_list (snd (apply_op stringify fits st op))
       ++ snd (run_ops stringify fits ops (fst (apply_op stringify fits st op)))).
Proof.
  simpl. destruct (apply_op stringify fits st op) as [st1 t]. simpl.
  destruct (run_ops stringify fits ops st1). reflexivity.
Qed.

Lemma run_ops_other stringify fits ops st k :
  k <> HISTORY_KEY ->
  storage (fst (run_ops stringify fits ops st)) !! k = storage st !! k.
Proof.
  intros Hk. revert st. induction ops as [|op ops IH]; intros st; [reflexivity|].
  rewrite run_ops_cons. simpl fst. rewrite IH.
  apply (proj2 (apply_op_cases stringify fits st op)), Hk.
Qed.

Lemma run_ops_errors stringify fits ops st e :
  In e (snd (run_ops stringify fits ops st)) -> e = QuotaExceededError.
Proof.
  revert st. induction ops as [|op ops IH]; intros st; [intros []|].
  rewrite run_ops_cons. simpl snd. intros Hin.
  apply in_app_or in Hin as [Hin | Hin]; [|exact (IH _ Hin)].
  destruct (proj1 (apply_op_cases stringify fits st op)) as [[E _] | [E _]];
    rewrite E in Hin; simpl in Hin; [contradiction|].
  destruct Hin as [<- | []]. reflexivity.
Qed.

Lemma run_ops_synced stringify fits op ops st :
  snd (run_ops stringify fits (op :: ops) st) = [] ->
  Synced stringify (fst (run_ops stringify fits (op :: ops) st)).
Proof.
  revert op st. induction ops as [|op' ops IH]; intros op st.
  - rewrite run_ops_cons. simpl. rewrite app_nil_r.
    destruct (proj1 (apply_op_cases stringify fits st op)) as [[E Hs] | [E _]];
      rewrite E; [intros _; exact Hs | discriminate].
  - rewrite (run_ops_cons _ _ op). simpl. intros Hnil.
    apply app_eq_nil in Hnil as [_ Hnil].
    exact (IH op' _ Hnil).
Qed.

Lemma filter_length_le {A} (f : A -> bool) (l : list A) :
  (length (List.filter f l) <= length l)%nat.
Proof.
  induction l as [|x l IH]; simpl; [lia|]. destruct (f x); simpl; lia.
Qed.

Lemma filter_sublist {A} (f : A -> bool) (l : list A) :
  List.filter f l `sublist_of` l.
Proof.
  induction l as [|x l IH]; simpl; [constructor|].
  destruct (f x); [apply sublist_skip | apply sublist_cons]; exact IH.
Qed.

Lemma apply_op_history stringify fits st op :
  history (fst (apply_op stringify fits st op))
  = match op with
    | OpSave item => firstn 50 (item :: history st)
    | OpDelete i => List.filter (fun h => negb (String.eqb (id h) i)) (history st)
    | OpClear => []
    end.
Proof.
  destruct op as [item|i|]; simpl.
  - apply HistoryProofs.saveToHistory_history.
  - unfold deleteHistoryItem. destruct (setItem _ _ _ _); reflexivity.
  - reflexivity.
Qed.

Lemma apply_op_bound stringify fits st op :
  (length (history st) <= 50)%nat ->
  (length (history (fst (apply_op stringify fits st op))) <= 50)%nat.
Proof.
  intros H. rewrite apply_op_history. destruct op as [item|i|].
  - rewrite length_firstn. lia.
  - pose proof (filter_length_le (fun h => negb (String.eqb (id h) i)) (history st)).
    lia.
  - simpl. lia.
Qed.

End ArchiveFacts.

Module ArchiveExtras.
Import JS History Archive ArchiveFacts.

(** The delete button of an entry removes exactly the entries whose id
    is the clicked entry's id (all of them: two entries made in the same
    millisecond share it), keeps every other entry in its order, and
    changes nothing in the history when no entry has that id.  The new
    history is stored under the archive key, or [setItem] throws
    [QuotaExceededError] and the stored record stays as it was; no other
    key is touched. *)
Theorem deleteHistoryItem_removes_id (stringify : list AudioHistoryItem -> string)
  (fits : gmap string string -> bool) (st : AppState) (i : string) :
  let st' := fst (deleteHistoryItem stringify fits st i) in
  (forall h, In h (history st') <-> In h (history st) /\ id h <> i) /\
  history st' `sublist_of` history st /\
  ((forall h, In h (history st) -> id h <> i) -> history st' = history st) /\
  ((snd (deleteHistoryItem stringify fits st i) = None /\
    storage st' !! HISTORY_KEY = Some (stringify (history st'))) \/
   (snd (deleteHistoryItem stringify fits st i) = Some QuotaExceededError /\
    storage st' = storage st)) /\
  (forall k, k <> HISTORY_KEY -> storage st' !! k = storage st !! k).
Proof.
  pose proof (apply_op_cases stringify fits st (OpDelete i)) as [Hc Ho].
  pose proof (apply_op_history stringify fits st (OpDelete i)) as Hh.
  cbn zeta in *. cbn [apply_op] in Hc, Ho, Hh.
  split; [|split; [|split; [|split]]].
  - intros h. rewrite Hh, filter_In.
    destruct (String.eqb_spec (id h) i); simpl; intuition congruence.
  - rewrite Hh. apply filter_sublist.
  - intros Hn. rewrite Hh. apply CodecProofs.filter_keep. intros h Hh'.
    destruct (String.eqb_spec (id h) i) as [E|_]; [|reflexivity].
    exfalso. exact (Hn h Hh' E).
  - destruct Hc as [[E [[_ Hnil] | Hs]] | [E Hs]].
    + left. split; [exact E|]. unfold deleteHistoryItem in *.
      destruct (setItem _ _ _ _) as [store|e] eqn:Hset; simpl in *; [|discriminate].
      destruct (setItem_cases fits (storage st) HISTORY_KEY
                  (stringify (List.filter (fun h => negb (String.eqb (id h) i))
                                          (history st))))
        as [(store' & Hset' & Hk & _) | Hset']; rewrite Hset' in Hset; [|discriminate].
      injection Hset as <-. exact Hk.
    + left. split; assumption.
    + right. split; assumption.
  - exact Ho.
Qed.

(** Each archive handler either stores the history it sets or throws
    [QuotaExceededError] and leaves the storage as it was, so after any
    non-empty sequence of saves, deletes and clears in which no
    [setItem] was refused, the stored record mirrors the history (absent
    with an empty history, or the serialised history).  The only
    exception a handler throws is [QuotaExceededError], and no key but
    the archive's is ever touched. *)
Theorem archive_storage_mirrors_history (stringify : list AudioHistoryItem -> string)
  (fits : gmap string string -> bool)
  (st : AppState) (op : history_op) (ops : list history_op) :
  let r := run_ops stringify fits (op :: ops) st in
  (snd r = [] ->
   (storage (fst r) !! HISTORY_KEY = None /\ history (fst r) = []) \/
   storage (fst r) !! HISTORY_KEY = Some (stringify (history (fst r)))) /\
  (forall s op', snd (apply_op stringify fits s op') <> None ->
     storage (fst (apply_op stringify fits s op')) = storage s) /\
  (forall e, In e (snd r) -> e = QuotaExceededError) /\
  (forall k, k <> HISTORY_KEY -> storage (fst r) !! k = storage st !! k).
Proof.
  cbv zeta. split; [|split; [|split]].
  - apply run_ops_synced.
  - intros s op' Hn.
    destruct (proj1 (apply_op_cases stringify fits s op')) as [[E _] | [_ Hs]];
      [contradiction | exact Hs].
  - apply run_ops_errors.
  - intros k Hk. apply (run_ops_other stringify fits (op :: ops) st k Hk).
Qed.

(** After any non-empty sequence of archive operations in which no
    [setItem] was refused, a reload of the page gives back the history
    in memory, provided the serialised history is not the empty text and
    [JSON.parse] reads it back. *)
Theorem archive_reload_restores (stringify : list AudioHistoryItem -> string)
  (fits : gmap string string -> bool) (parse : string -> result jsvalue)
  (st : AppState) (op : history_op) (ops : list history_op)
  (Hok : snd (run_ops stringify fits (op :: ops) st) = [])
  (Hne : stringify (history (fst (run_ops stringify fits (op :: ops) st))) <> ""%string)
  (Hparse : parse (stringify (history (fst (run_ops stringify fits (op :: ops) st))))
            = Ok (JItems (history (fst (run_ops stringify fits (op :: ops) st))))) :
  load parse (storage (fst (run_ops stringify fits (op :: ops) st)))
  = Ok (JItems (history (fst (run_ops stringify fits (op :: ops) st))), []).
Proof.
  revert Hne Hparse.
  destruct (run_ops_synced stringify fits op ops st Hok) as [[Hn Hh] | Hs];
    intros Hne Hparse; unfold load.
  - rewrite Hn, Hh. reflexivity.
  - rewrite Hs.
    destruct (String.eqb_spec
                (stringify (history (fst (run_ops stringify fits (op :: ops) st)))) "")
      as [E|_]; [contradiction|].
    rewrite Hparse. reflexivity.
Qed.

Lemma archive_reload_restores_witness :
  load (fun _ => Ok (JItems []))
    (storage (fst (run_ops (fun _ => "[]"%string) (fun _ => true)
                     [OpSave sample_item; OpDelete "1"] {| history := []; storage := ∅ |})))
  = Ok (JItems (history (fst (run_ops (fun _ => "[]"%string) (fun _ => true)
                                [OpSave sample_item; OpDelete "1"]
                                {| history := []; storage := ∅ |}))), []).
Proof.
  apply (archive_reload_restores (fun _ => "[]"%string) (fun _ => true)
           (fun _ => Ok (JItems [])) {| history := []; storage := ∅ |}
           (OpSave sample_item) [OpDelete "1"]).
  - vm_compute. reflexivity.
  - vm_compute. intros E. discriminate E.
  - vm_compute. reflexivity.
Defined.

(** A save that [setItem] refuses keeps the new history in memory but
    leaves the stored record as it was: a reload then gives what was
    stored before the save, not the history on screen. *)
Theorem save_refused_reload_stale (stringify : list AudioHistoryItem -> string)
  (fits : gmap string string -> bool) (parse : string -> result jsvalue)
  (st : AppState) (item : AudioHistoryItem)
  (Hthrow : snd (saveToHistory stringify fits st item) <> None) :
  snd (saveToHistory stringify fits st item) = Some QuotaExceededError /\
  history (fst (saveToHistory stringify fits st item)) = firstn 50 (item :: history st) /\
  storage (fst (saveToHistory stringify fits st item)) = storage st /\
  load parse (storage (fst (saveToHistory stringify fits st item)))
  = load parse (storage st).
Proof.
  pose proof (apply_op_cases stringify fits st (OpSave item)) as [Hc _].
  cbn [apply_op] in Hc.
  destruct Hc as [[E _] | [E Hs]]; [contradiction|].
  split; [exact E|]. split; [apply HistoryProofs.saveToHistory_history|].
  split; [exact Hs|]. rewrite Hs. reflexivity.
Qed.

Lemma save_refused_reload_stale_witness :
  history (fst (saveToHistory (fun _ => "[]"%string) (fun _ => false)
                  {| history := []; storage := ∅ |} sample_item)) = [sample_item] /\
  load (fun _ => Ok (JItems [])) (storage (fst (saveToHistory (fun _ => "[]"%string)
         (fun _ => false) {| history := []; storage := ∅ |} sample_item)))
  = Ok (JItems [], []).
Proof.
  destruct (save_refused_reload_stale (fun _ => "[]"%string) (fun _ => false)
              (fun _ => Ok (JItems [])) {| history := []; storage := ∅ |} sample_item)
    as (_ & Hh & _ & Hl).
  - vm_compute. intros E. discriminate E.
  - split; [exact Hh|]. rewrite Hl. reflexivity.
Defined.

(** A save always leaves at most 50 entries, and from a history of at
    most 50 entries no sequence of saves, deletes and clears exceeds
    50. *)
Theorem archive_at_most_50 (stringify : list AudioHistoryItem -> string)
  (fits : gmap string string -> bool)
  (st : AppState) (ops : list history_op)
  (Hst : (length (history st) <= 50)%nat) :
  (forall s item,
     (length (history (fst (apply_op stringify fits s (OpSave item)))) <= 50)%nat) /\
  (length (history (fst (run_ops stringify fits ops st))) <= 50)%nat.
Proof.
  split.
  - intros s item. rewrite apply_op_history, length_firstn. lia.
  - revert st Hst. induction ops as [|op ops IH]; intros st Hst; [exact Hst|].
    rewrite run_ops_cons. apply IH, apply_op_bound, Hst.
Qed.

Lemma archive_at_most_50_witness :
  (length (history {| history := [sample_item]; storage := ∅ |}) <= 50)%nat /\
  (length (history (fst (run_ops (fun _ => "[]"%string) (fun _ => true)
                           [OpSave sample_item; OpClear]
                           {| history := [sample_item]; storage := ∅ |}))) <= 50)%nat.
Proof.
  assert (H : (length (history {| history := [sample_item]; storage := ∅ |}) <= 50)%nat)
    by (simpl; lia).
  split; [exact H|].
  exact (proj2 (archive_at_most_50 (fun _ => "[]"%string) (fun _ => true)
                  {| history := [sample_item]; storage := ∅ |}
                  [OpSave sample_item; OpClear] H)).
Defined.

End ArchiveExtras.

(* ------------------------------------------------------------------ *)
(** ** Export of an archive entry *)

Module DownloadExtras.
Import JS Base64 Codec Wav DataView History Download CodecProofs WavProofs.

(** Exporting an entry whose payload is the base64 text of a byte
    sequence [B] saves the file [SonaVerta-<id>.wav] holding a 44-byte
    header followed by [B] unchanged, with audio format 1 (linear PCM),
    one channel, sample rate 24000, byte rate 48000, 16 bits per sample,
    data size [length B] and
    chunk size [36 + length B] (for files under 4 GiB).  The export
    never views the bytes as 16-bit samples: an odd-length [B] exports
    fine although its playback throws. *)
Theorem downloadAudio_base64 (item : AudioHistoryItem) (B : list Z)
  (Hbytes : Forall (fun b => 0 <= b < 256) B)
  (Hpayload : audioData item = base64 B)
  (Hsize : Z.of_nat (length B) + 36 < 2 ^ 32) :
  exists blob,
    downloadAudio item = Ok (downloadName item, blob) /\
    (length blob = 44 + length B)%nat /\
    skipn 44 blob = B /\
    getUint blob 4 4 = 36 + Z.of_nat (length B) /\
    getUint blob 20 2 = 1 /\
    getUint blob 22 2 = 1 /\
    getUint blob 24 4 = 24000 /\
    getUint blob 28 4 = 48000 /\
    getUint blob 34 2 = 16 /\
    getUint blob 40 4 = Z.of_nat (length B) /\
    (Nat.odd (length B) = true -> decodeSamples (audioData item) = Throw RangeError).
Proof.
  exists (createWavBlob B 24000).
  unfold downloadAudio. rewrite Hpayload, decode_base64 by exact Hbytes.
  unfold getUint.
  rewrite slice_4, slice_20, slice_22, slice_24, slice_28, slice_34, slice_40,
    !le_value_le32, !le_value_le16.
  split; [reflexivity|]. split.
  { unfold createWavBlob. rewrite length_app, wav_header_length. reflexivity. }
  split; [reflexivity|]. split; [apply Z.mod_small; lia|].
  split; [reflexivity|]. split; [reflexivity|]. split; [reflexivity|]. split; [reflexivity|].
  split; [reflexivity|]. split; [apply Z.mod_small; lia|].
  intros Hodd. unfold decodeSamples. rewrite decode_base64 by exact Hbytes.
  unfold Int16Array_of_buffer.
  destruct (proj1 (Nat.odd_spec (length B)) Hodd) as [k Hk].
  rewrite Hk, Nat.add_comm, Nat.mul_comm, Nat.Div0.mod_add. reflexivity.
Qed.

Lemma downloadAudio_base64_witness :
  exists blob,
    downloadAudio sample_item = Ok ("SonaVerta-1.wav"%string, blob) /\
    skipn 44 blob = [0; 0; 0] /\
    decodeSamples (audioData sample_item) = Throw RangeError.
Proof.
  assert (Hb : Forall (fun b => 0 <= b < 256) [0; 0; 0]) by (repeat constructor; lia).
  assert (Hp : audioData sample_item = base64 [0; 0; 0]) by (vm_compute; reflexivity).
  assert (Hs : Z.of_nat (length [0; 0; 0]) + 36 < 2 ^ 32) by (simpl; lia).
  destruct (downloadAudio_base64 sample_item [0; 0; 0] Hb Hp Hs)
    as (blob & H1 & _ & H2 & _ & _ & _ & _ & _ & _ & _ & H3).
  exists blob. split; [exact H1|]. split; [exact H2|]. apply H3. reflexivity.
Defined.

End DownloadExtras.

(* ------------------------------------------------------------------ *)
(** ** The audio buffer built by [decodeAudioData] *)

Module AudioFacts.
Import JS Codec WebAudio CodecProofs.

Lemma int16_le_length (bs : list Z) : length (int16_le bs) = (length bs / 2)%nat.
Proof.
  induction bs as [|a|a b r IH] using list_ind2; [reflexivity | reflexivity |].
  cbn [int16_le length]. rewrite IH.
  replace (S (S (length r))) with (length r + 1 * 2)%nat by lia.
  rewrite Nat.div_add by lia. lia.
Qed.

Lemma int16_le_range (bs : list Z) :
  Forall (fun b => 0 <= b < 256) bs ->
  Forall (fun s => -32768 <= s <= 32767) (int16_le bs).
Proof.
  induction bs as [|a|a b r IH] using list_ind2; intros Hb;
    [constructor | constructor |].
  inversion Hb as [|? ? Ha Hb1]; inversion Hb1 as [|? ? Hb' Hr]; subst.
  cbn [int16_le]. constructor; [|apply IH, Hr].
  destruct (Z.leb_spec 32768 (a + 256 * b)); lia.
Qed.

Lemma map_seq_nth {B} (g : Z -> B) (l : list Z) :
  map (fun i => g (nth i l 0)) (seq 0 (length l)) = map g l.
Proof.
  induction l as [|x l IH]; [reflexivity|].
  cbn [length seq map nth]. f_equal.
  rewrite <- seq_shift, map_map. exact IH.
Qed.

Lemma mono_channels (l : list Z) :
  map (fun channel =>
         map (fun i => (nth (i * 1 + channel) l 0%Z # 32768)%Q) (seq 0 (length l)))
      (seq 0 1)
  = [map (fun s => (s # 32768)%Q) l].
Proof.
  cbn [seq map]. f_equal.
  rewrite <- (map_seq_nth (fun s => (s # 32768)%Q)).
  apply map_ext. intros i. rewrite Nat.mul_1_r, Nat.add_0_r. reflexivity.
Qed.

End AudioFacts.

Module AudioExtras.
Import JS Codec WebAudio AudioFacts.

(** For a non-empty even-length byte buffer, [decodeAudioData] at
    24000 Hz with one channel builds a buffer of one channel with one
    frame per byte pair; frame [i] holds the signed 16-bit sample [s] of
    pair [i] as [s / 32768], so every stored value lies in [-1, 1) and
    the samples lie in [-32768, 32767]. *)
Theorem decodeAudioData_mono (data : list Z)
  (Hbytes : Forall (fun b => 0 <= b < 256) data)
  (Heven : Nat.even (length data) = true)
  (Hne : data <> []) :
  decodeAudioData data 24000 1 = Buffer [map (fun s => (s # 32768)%Q) (int16_le data)] /\
  length (int16_le data) = (length data / 2)%nat /\
  Forall (fun s => -32768 <= s <= 32767) (int16_le data) /\
  Forall (fun x => (-1 <= x)%Q /\ (x < 1)%Q) (map (fun s => (s # 32768)%Q) (int16_le data)).
Proof.
  assert (Hlen := int16_le_length data).
  assert (Hrange := int16_le_range data Hbytes).
  assert (Hpos : (1 <= length (int16_le data))%nat).
  { rewrite Hlen. destruct data as [|a [|b r]]; [congruence | discriminate |].
    cbn [length]. replace (S (S (length r))) with (length r + 1 * 2)%nat by lia.
    rewrite Nat.div_add by lia. lia. }
  split; [|split; [exact Hlen | split; [exact Hrange|]]].
  - unfold decodeAudioData.
    assert (HI : Int16Array_of_buffer data = Ok (int16_le data)).
    { unfold Int16Array_of_buffer.
      destruct (proj1 (Nat.even_spec (length data)) Heven) as [k Hk].
      rewrite Hk, Nat.mul_comm, Nat.Div0.mod_mul. reflexivity. }
    rewrite HI. cbv zeta. rewrite Nat.div_1_r.
    assert (Hok : createBuffer_ok 1 (length (int16_le data)) 24000 = true).
    { unfold createBuffer_ok. apply Nat.leb_le in Hpos. rewrite Hpos. reflexivity. }
    rewrite Hok, mono_channels. reflexivity.
  - apply Forall_map. eapply Forall_impl; [exact Hrange|].
    intros s Hs. cbv beta in Hs. unfold Qle, Qlt. simpl. lia.
Qed.

Lemma decodeAudioData_mono_witness :
  decodeAudioData [0; 0; 0; 128; 255; 127] 24000 1
  = Buffer [map (fun s => (s # 32768)%Q) [0; -32768; 32767]].
Proof.
  assert (Hb : Forall (fun b => 0 <= b < 256) [0; 0; 0; 128; 255; 127])
    by (repeat constructor; lia).
  destruct (decodeAudioData_mono [0; 0; 0; 128; 255; 127] Hb eq_refl
              ltac:(discriminate)) as [H _].
  exact H.
Defined.

End AudioExtras.

(* ------------------------------------------------------------------ *)
(** ** The playback controller when the context is never suspended *)

Module PlaybackRunFacts.
Import JS Codec Playback PlaybackProofs PlaybackRuns.

Definition is_ended (t : task) : bool :=
  match t with TEnded _ => true | TResume _ => false end.

(** Only the node in [sourceNodeRef] may be playing. *)
Definition only_ref (st : Player) : Prop :=
  forall m nd, nodes st !! m = Some nd -> live nd = true -> sourceNodeRef st = Some m.

(** No node is playing. *)
Definition quiet (st : Player) : Prop :=
  forall m nd, nodes st !! m = Some nd -> live nd = false.

(** Between two tasks of a run without suspension. *)
Definition J (st : Player) : Prop :=
  microtasks st = [] /\ audioContext st <> Some Suspended /\
  forallb is_ended (tasks st) = true /\ only_ref st.

(** The first statement of [playFromBase64]. *)
Definition stop_current (st : Player) : Player :=
  match sourceNodeRef st with
  | None => st
  | Some n => match stopNode st n with Ok s => s | Throw _ => st end
  end.

Lemma J_initial : J initial.
Proof.
  split; [reflexivity|]. split; [discriminate|]. split; [reflexivity|].
  intros m nd H. simpl in H. discriminate.
Qed.

Lemma quiet_only_ref (st : Player) : quiet st -> only_ref st.
Proof. intros Hq m nd H L. rewrite (Hq m nd H) in L. discriminate. Qed.

Lemma live_nodes_iff (st : Player) (m : nat) :
  In m (live_nodes st) <-> exists nd, nodes st !! m = Some nd /\ live nd = true.
Proof.
  unfold live_nodes. rewrite filter_In, in_seq. split.
  - intros [_ H]. destruct (nodes st !! m) as [nd|]; [eauto | discriminate].
  - intros (nd & E & L). split.
    + apply lookup_lt_Some in E. lia.
    + rewrite E. exact L.
Qed.

Lemma quiet_live_nodes (st : Player) : quiet st -> live_nodes st = [].
Proof.
  intros Hq. destruct (live_nodes st) as [|m ms] eqn:E; [reflexivity|].
  exfalso. assert (Hm : In m (live_nodes st)) by (rewrite E; left; reflexivity).
  apply live_nodes_iff in Hm as (nd & Hn & L).
  rewrite (Hq m nd Hn) in L. discriminate.
Qed.

Lemma drain_nil (st : Player) : microtasks st = [] -> drain st = st.
Proof. destruct st; simpl. intros ->. reflexivity. Qed.

Lemma stopNode_facts (st s : Player) (n : nat) :
  stopNode st n = Ok s ->
  microtasks s = microtasks st /\ audioContext s = audioContext st /\
  sourceNodeRef s = sourceNodeRef st /\
  (tasks s = tasks st \/ tasks s = tasks st ++ [TEnded n]) /\
  (forall m nd, nodes s !! m = Some nd -> live nd = true ->
     m <> n /\ nodes st !! m = Some nd).
Proof.
  unfold stopNode. destruct (nodes st !! n) as [nd0|] eqn:En.
  - destruct (negb (started nd0)); [discriminate|].
    destruct (stopped nd0) eqn:Ep.
    + intros E. injection E as <-.
      split; [reflexivity|]. split; [reflexivity|]. split; [reflexivity|].
      split; [left; reflexivity|].
      intros m nd Hm L. split; [|exact Hm]. intros ->.
      rewrite En in Hm. injection Hm as <-. unfold live in L.
      rewrite Ep, andb_false_r in L. discriminate.
    + intros E. injection E as <-.
      split; [reflexivity|]. split; [reflexivity|]. split; [reflexivity|].
      split; [right; reflexivity|].
      intros m nd Hm L. cbn [nodes with_tasks with_nodes] in Hm.
      apply list_lookup_insert_Some in Hm as [(_ & <- & _) | (Hne & Hm)].
      * discriminate L.
      * split; [congruence | exact Hm].
  - intros E. injection E as <-.
    split; [reflexivity|]. split; [reflexivity|]. split; [reflexivity|].
    split; [left; reflexivity|].
    intros m nd Hm L. split; [intros ->; congruence | exact Hm].
Qed.

Lemma stop_current_facts (st : Player) :
  J st ->
  quiet (stop_current st) /\ microtasks (stop_current st) = [] /\
  audioContext (stop_current st) = audioContext st /\
  forallb is_ended (tasks (stop_current st)) = true /\
  sourceNodeRef (stop_current st) = sourceNodeRef st.
Proof.
  intros (Hm & Hc & Ht & Ho). unfold stop_current.
  destruct (sourceNodeRef st) as [n|] eqn:Er.
  - destruct (stopNode st n) as [s|e] eqn:Es.
    + destruct (stopNode_facts _ _ _ Es) as (F1 & F2 & F3 & F4 & F5).
      split; [|split; [congruence | split; [exact F2 | split]]].
      * intros m nd Hn. destruct (live nd) eqn:L; [|reflexivity]. exfalso.
        destruct (F5 m nd Hn L) as [Hne Hst].
        pose proof (Ho m nd Hst L). congruence.
      * destruct F4 as [-> | ->]; [exact Ht|]. rewrite forallb_app, Ht. reflexivity.
      * rewrite F3. exact Er.
    + split; [|split; [exact Hm | split; [reflexivity | split; [exact Ht | exact Er]]]].
      intros m nd Hn. destruct (live nd) eqn:L; [|reflexivity]. exfalso.
      pose proof (Ho m nd Hn L) as Hr. rewrite Er in Hr. injection Hr as <-.
      unfold stopNode in Es. rewrite Hn in Es. unfold live in L.
      apply andb_prop in L as [Ls _]. rewrite Ls in Es. simpl in Es.
      destruct (stopped nd); discriminate.
  - split; [|split; [exact Hm | split; [reflexivity | split; [exact Ht | exact Er]]]].
    intros m nd Hn. destruct (live nd) eqn:L; [|reflexivity].
    pose proof (Ho m nd Hn L). congruence.
Qed.

Lemma play_J (st : Player) (p : string) :
  J st ->
  J (exec_action st (Play p)) /\
  ((forall x xs, decodeSamples p <> Ok (x :: xs)) -> quiet (exec_action st (Play p))).
Proof.
  intros HJ. pose proof (stop_current_facts st HJ) as (Q & M & C & T & _).
  destruct HJ as (_ & Hc & _ & _).
  unfold exec_action, handle, playFromBase64. fold (stop_current st).
  revert Q M C T. generalize (stop_current st).
  intros [ns r b c ms ts fs] Q M C T. simpl in M, C, T. subst ms.
  unfold quiet in Q. simpl in Q.
  remember (decodeSamples p) as res eqn:Hres.
  assert (Hc' : c = None \/ c = Some Running).
  { destruct c as [[|]|]; auto. rewrite C in Hc. contradiction. }
  destruct Hc' as [-> | ->]; cbv [with_ctx after_resume with_micro with_tasks drain];
    simpl; rewrite <- Hres;
    (destruct res as [[|x xs]|e];
     [ (* Ok [] *) split; [split; [reflexivity | split; [discriminate | split;
          [exact T | apply quiet_only_ref; exact Q]]] | intros _; exact Q]
     | (* Ok (x :: xs) *) split;
       [ split; [reflexivity | split; [discriminate | split; [exact T|]]];
         intros m nd Hm L; simpl in Hm |- *;
         apply lookup_app_Some in Hm as [Hm | [Hge Hm]];
         [ rewrite (Q m nd Hm) in L; discriminate
         | apply list_lookup_singleton_Some in Hm as [Hm _]; f_equal; lia ]
       | intros Hbad; exfalso; exact (Hbad x xs eq_refl) ]
     | (* Throw *) split; [split; [reflexivity | split; [discriminate | split;
          [exact T | apply quiet_only_ref; exact Q]]] | intros _; exact Q] ]).
Qed.

Lemma stop_J (st : Player) :
  J st -> Inv st ->
  J (exec_action st StopButton) /\ quiet (exec_action st StopButton) /\
  isPlaying (exec_action st StopButton) = false.
Proof.
  intros HJ HI. pose proof (stop_current_facts st HJ) as (Q & M & C & T & R).
  destruct HJ as (Hm & Hc & Ht & Ho).
  unfold exec_action, handle, stopButton.
  unfold stop_current in Q, M, C, T, R.
  destruct (sourceNodeRef st) as [n|] eqn:Er.
  - destruct (stopNode_no_throw st n HI) as [s Es]. rewrite Es in Q, M, C, T, R |- *.
    rewrite drain_nil by exact M.
    assert (Qs : quiet (with_playing s false)) by exact Q.
    split; [|split; [exact Qs | reflexivity]].
    split; [exact M|]. split; [simpl; congruence|]. split; [exact T|].
    apply quiet_only_ref, Qs.
  - rewrite drain_nil by exact Hm.
    assert (Qs : quiet (with_playing st false)) by exact Q.
    split; [|split; [exact Qs | reflexivity]].
    split; [exact Hm|]. split; [exact Hc|]. split; [exact Ht|].
    apply quiet_only_ref, Qs.
Qed.

Lemma run_task_J (st : Player) : J st -> J (exec_action st RunTask).
Proof.
  intros (Hm & Hc & Ht & Ho). unfold exec_action, handle, run_task.
  destruct (tasks st) as [|[n|p] ts] eqn:Ets.
  - rewrite drain_nil by exact Hm. split; [exact Hm | split; [exact Hc|]].
    split; [rewrite Ets; reflexivity | exact Ho].
  - rewrite drain_nil by exact Hm. simpl in Ht.
    split; [exact Hm | split; [exact Hc | split; [exact Ht | exact Ho]]].
  - simpl in Ht. discriminate.
Qed.

Lemma finish_J (st : Player) (n : nat) : J st -> J (exec_action st (Finish n)).
Proof.
  intros (Hm & Hc & Ht & Ho). unfold exec_action, handle, finish.
  destruct (nodes st !! n) as [nd0|] eqn:En.
  - destruct (started nd0 && negb (stopped nd0)).
    + rewrite drain_nil by exact Hm.
      split; [exact Hm | split; [exact Hc | split]].
      * simpl. rewrite forallb_app, Ht. reflexivity.
      * intros m nd Hn L. cbn [nodes with_tasks with_nodes sourceNodeRef] in Hn |- *.
        apply list_lookup_insert_Some in Hn as [(_ & <- & _) | (Hne & Hn)].
        -- discriminate L.
        -- exact (Ho m nd Hn L).
    + rewrite drain_nil by exact Hm. split; [exact Hm | split; [exact Hc | split; [exact Ht | exact Ho]]].
  - rewrite drain_nil by exact Hm. split; [exact Hm | split; [exact Hc | split; [exact Ht | exact Ho]]].
Qed.

Lemma exec_action_J (st : Player) (a : action) :
  J st -> Inv st -> a <> Suspend -> J (exec_action st a).
Proof.
  intros HJ HI Ha. destruct a as [p| | |n|].
  - exact (proj1 (play_J st p HJ)).
  - exact (proj1 (stop_J st HJ HI)).
  - apply run_task_J, HJ.
  - apply finish_J, HJ.
  - contradiction.
Qed.

Lemma exec_J (acts : list action) : no_suspend acts = true -> J (exec acts).
Proof.
  unfold exec. generalize J_initial Inv_initial. generalize initial.
  induction acts as [|a acts IH]; intros st HJ HI Hn; simpl; [exact HJ|].
  simpl in Hn. apply andb_prop in Hn as [Ha Hn].
  apply IH; [| apply exec_action_Inv, HI | exact Hn].
  apply exec_action_J; [exact HJ | exact HI |]. intros ->. discriminate.
Qed.

Lemma exec_snoc (acts : list action) (a : action) :
  exec (acts ++ [a]) = exec_action (exec acts) a.
Proof. unfold exec. rewrite fold_left_app. reflexivity. Qed.

Lemma NoDup_all_eq (l : list nat) (a : nat) :
  List.NoDup l -> (forall x, In x l -> x = a) -> l = [] \/ l = [a].
Proof.
  intros Hnd Hall. destruct l as [|x [|y l]]; [left; reflexivity | |].
  - right. rewrite (Hall x (or_introl eq_refl)). reflexivity.
  - exfalso. inversion Hnd as [|? ? Hx _]; subst.
    apply Hx. left. rewrite (Hall x (or_introl eq_refl)),
      (Hall y (or_intror (or_introl eq_refl))). reflexivity.
Qed.

End PlaybackRunFacts.

Module PlaybackRunExtras.
Import JS Codec Playback PlaybackProofs PlaybackRuns PlaybackRunFacts.

(** As long as the host never suspends the audio context, at most one
    node plays at any time, and it is the node in [sourceNodeRef]. *)
Theorem no_suspend_single_live (acts : list action)
  (Hrun : no_suspend acts = true) :
  live_nodes (exec acts) = [] \/
  exists m, live_nodes (exec acts) = [m] /\ sourceNodeRef (exec acts) = Some m.
Proof.
  destruct (exec_J acts Hrun) as (_ & _ & _ & Ho).
  destruct (sourceNodeRef (exec acts)) as [r|] eqn:Er.
  - assert (Hall : forall x, In x (live_nodes (exec acts)) -> x = r).
    { intros x Hx. apply live_nodes_iff in Hx as (nd & Hn & L).
      pose proof (Ho x nd Hn L) as E. congruence. }
    assert (Hnd : List.NoDup (live_nodes (exec acts))).
    { unfold live_nodes. apply List.NoDup_filter, List.seq_NoDup. }
    destruct (NoDup_all_eq _ r Hnd Hall) as [E | E]; [left; exact E|].
    right. exists r. split; reflexivity || exact E.
  - left. apply quiet_live_nodes. intros m nd Hn. destruct (live nd) eqn:L;
      [|reflexivity]. pose proof (Ho m nd Hn L). congruence.
Qed.

Lemma no_suspend_single_live_witness :
  no_suspend [Play "AAAAQADA/38="; Play "AAAAQADA/38="; RunTask] = true /\
  (live_nodes (exec [Play "AAAAQADA/38="; Play "AAAAQADA/38="; RunTask]) = [] \/
   exists m, live_nodes (exec [Play "AAAAQADA/38="; Play "AAAAQADA/38="; RunTask]) = [m] /\
   sourceNodeRef (exec [Play "AAAAQADA/38="; Play "AAAAQADA/38="; RunTask]) = Some m).
Proof.
  split; [reflexivity|]. apply no_suspend_single_live. reflexivity.
Defined.

(** In a run without suspension, pressing the stop button silences
    every node and sets [isPlaying] to false. *)
Theorem no_suspend_stop_silences (acts : list action)
  (Hrun : no_suspend acts = true) :
  live_nodes (exec (acts ++ [StopButton])) = [] /\
  isPlaying (exec (acts ++ [StopButton])) = false.
Proof.
  rewrite exec_snoc.
  destruct (stop_J (exec acts) (exec_J acts Hrun) (exec_Inv acts)) as (_ & Q & P).
  split; [apply quiet_live_nodes, Q | exact P].
Qed.

Lemma no_suspend_stop_silences_witness :
  no_suspend [Play "AAAAQADA/38="; Play "AAAAQADA/38="] = true /\
  live_nodes (exec ([Play "AAAAQADA/38="; Play "AAAAQADA/38="] ++ [StopButton])) = [].
Proof.
  split; [reflexivity|].
  exact (proj1 (no_suspend_stop_silences [Play "AAAAQADA/38="; Play "AAAAQADA/38="]
                  eq_refl)).
Defined.

(** In a run without suspension, playing a payload that yields no
    samples (not base64, an odd number of bytes, or empty) stops what
    was playing and starts nothing: afterwards no node plays. *)
Theorem no_suspend_undecodable_silences (acts : list action) (p : string)
  (Hrun : no_suspend acts = true)
  (Hbad : forall x xs, decodeSamples p <> Ok (x :: xs)) :
  live_nodes (exec (acts ++ [Play p])) = [].
Proof.
  rewrite exec_snoc. apply quiet_live_nodes.
  exact (proj2 (play_J (exec acts) p (exec_J acts Hrun)) Hbad).
Qed.

Lemma no_suspend_undecodable_silences_witness :
  no_suspend [Play "AAAAQADA/38="] = true /\
  (forall x xs, decodeSamples "AAAA" <> Ok (x :: xs)) /\
  live_nodes (exec ([Play "AAAAQADA/38="] ++ [Play "AAAA"])) = [].
Proof.
  assert (Hbad : forall x xs, decodeSamples "AAAA" <> Ok (x :: xs)).
  { intros x xs E. vm_compute in E. discriminate E. }
  split; [reflexivity|]. split; [exact Hbad|].
  exact (no_suspend_undecodable_silences [Play "AAAAQADA/38="] "AAAA" eq_refl Hbad).
Defined.

End PlaybackRunExtras.

(* ------------------------------------------------------------------ *)
(** ** The editor handlers *)

Module StudioFacts.
Import JS SampleCache Playback Studio.

Lemma truthy_value_Some (o : option string) (s : string) :
  truthy_value o = Some s -> o = Some s /\ s <> ""%string.
Proof.
  destruct o as [s'|]; simpl; [|discriminate]. unfold truthy.
  destruct (String.eqb_spec s' "") as [E|E]; simpl; [discriminate|].
  intros H. injection H as <-. auto.
Qed.

Lemma truthy_value_nonempty (s : string) :
  s <> ""%string -> truthy_value (Some s) = Some s.
Proof.
  intros H. simpl. unfold truthy.
  destruct (String.eqb_spec s "") as [E|_]; [contradiction | reflexivity].
Qed.

Lemma generateTTS_start_Some (st st1 : Studio) (pd : Pending) :
  generateTTS_start st = (st1, Some pd) ->
  trim_empty (text st) = false /\ isGenerating st = false /\
  truthy_value (selectedVoice st) = Some (p_voice pd) /\
  truthy_value (selectedLang st) = Some (p_lang pd) /\
  p_text pd = text st /\ p_history pd = History.history (app st) /\
  st1 = add_request (set_generating st true) (text st, p_voice pd).
Proof.
  unfold generateTTS_start.
  destruct (trim_empty (text st)), (isGenerating st); simpl; try discriminate.
  destruct (truthy_value (selectedVoice st)) as [v|],
    (truthy_value (selectedLang st)) as [l|]; try discriminate.
  intros H. injection H as <- <-. simpl.
  repeat split; reflexivity.
Qed.

Lemma generateTTS_start_snd (st : Studio) (pd : Pending) :
  snd (generateTTS_start st) = Some pd ->
  generateTTS_start st = (fst (generateTTS_start st), Some pd).
Proof. destruct (generateTTS_start st) as [s o]. simpl. intros ->. reflexivity. Qed.

Lemma playVoiceSample_start_Some (v : Catalogue.VoiceOption) (st st1 : Studio)
  (pp : PendingPreview) :
  playVoiceSample_start v st = (st1, Some pp) ->
  truthy_value (selectedLang st) = Some (pv_lang pp) /\
  opt_truthy (isPreviewing st) = false /\
  truthy_value (cache_get (sampleCache st) (Catalogue.id v) (pv_lang pp)) = None /\
  pv_voice pp = Catalogue.id v /\
  st1 = add_request (set_previewing st (Some (Catalogue.label v)))
          (sampleText_of (pv_lang pp), Catalogue.id v).
Proof.
  unfold playVoiceSample_start.
  destruct (truthy_value (selectedLang st)) as [l|]; [|discriminate].
  destruct (opt_truthy (isPreviewing st)); [discriminate|].
  destruct (truthy_value (cache_get (sampleCache st) (Catalogue.id v) l)) eqn:Ec;
    [discriminate|].
  intros H. injection H as <- <-. simpl.
  repeat split; assumption || reflexivity.
Qed.

Lemma catalogue_labels (v : Catalogue.VoiceOption) :
  In v Catalogue.voices ->
  In (voiceLabel_of (Catalogue.id v))
     ["Evelyn"; "Caleb"; "Finn"; "Winston"; "Silas"]%string.
Proof.
  intros Hv. simpl in Hv.
  repeat (destruct Hv as [<- | Hv];
          [vm_compute; repeat first [left; reflexivity | right] |]).
  contradiction.
Qed.

(** [saveToHistory] sets the history, and stores it or throws
    [QuotaExceededError] leaving the storage as it was. *)
Lemma save_outcome (stringify : list History.AudioHistoryItem -> string)
  (fits : gmap string string -> bool) (s : History.AppState)
  (item : History.AudioHistoryItem) :
  History.history (fst (History.saveToHistory stringify fits s item))
    = firstn 50 (item :: History.history s) /\
  ((snd (History.saveToHistory stringify fits s item) = None /\
    History.storage (fst (History.saveToHistory stringify fits s item)) !! History.HISTORY_KEY
      = Some (stringify (History.history (fst (History.saveToHistory stringify fits s item))))) \/
   (snd (History.saveToHistory stringify fits s item) = Some QuotaExceededError /\
    History.storage (fst (History.saveToHistory stringify fits s item)) = History.storage s)).
Proof.
  split; [apply HistoryProofs.saveToHistory_history|]. unfold History.saveToHistory.
  destruct (ArchiveFacts.setItem_cases fits (History.storage s) History.HISTORY_KEY
              (stringify (firstn 50 (item :: History.history s))))
    as [(store' & -> & Hk & _) | ->]; simpl.
  - left. split; [reflexivity | exact Hk].
  - right. split; reflexivity.
Qed.

(** The history [generateTTS_finish] leaves when the reply carries
    audio: whatever [setItem] does, the new entry before the history
    read at the start. *)
Lemma finish_history (stringify : list History.AudioHistoryItem -> string)
  (fits : gmap string string -> bool) (now : N) (stamp : string) (pd : Pending)
  (d : option string) (a : string) (st : Studio) :
  truthy_value d = Some a ->
  History.history (app (generateTTS_finish stringify fits now stamp pd (Reply d) st))
  = firstn 50 (Ids.newItem now (p_text pd) (p_voice pd) (voiceLabel_of (p_voice pd))
                 (p_lang pd) (languageName_of (p_lang pd)) stamp a :: p_history pd).
Proof.
  intros Ha. unfold generateTTS_finish. rewrite Ha.
  match goal with |- context [History.saveToHistory ?f ?g ?s ?i] =>
    destruct (save_outcome f g s i) as [Hh _];
    destruct (History.saveToHistory f g s i) as [saved thrown] end.
  simpl in Hh. destruct thrown; exact Hh.
Qed.

End StudioFacts.

Module StudioExtras.
Import JS SampleCache Playback Studio StudioFacts Scenarios.

(** [generateTTS] goes past its guard exactly when the generate button
    is enabled ([isReadyToGenerate] and not [isGenerating]); otherwise it
    changes nothing.  When it goes on, it sets [isGenerating], sends one
    request with the typed text and the selected voice id, and keeps the
    text, the selection and the current history for the reply; it has
    not touched the archive, the player or the alerts yet. *)
Theorem generateTTS_start_guard (st : Studio) :
  (snd (generateTTS_start st) <> None <->
   isReadyToGenerate st = true /\ isGenerating st = false) /\
  (snd (generateTTS_start st) = None -> fst (generateTTS_start st) = st) /\
  (forall pd, snd (generateTTS_start st) = Some pd ->
     isGenerating (fst (generateTTS_start st)) = true /\
     requests (fst (generateTTS_start st)) = requests st ++ [(text st, p_voice pd)] /\
     selectedVoice st = Some (p_voice pd) /\ selectedLang st = Some (p_lang pd) /\
     p_text pd = text st /\ p_history pd = History.history (app st) /\
     app (fst (generateTTS_start st)) = app st /\
     player (fst (generateTTS_start st)) = player st /\
     alerts (fst (generateTTS_start st)) = alerts st).
Proof.
  split; [|split].
  - unfold isReadyToGenerate, opt_truthy.
    destruct (generateTTS_start st) as [st1 [pd|]] eqn:E; simpl.
    + destruct (generateTTS_start_Some _ _ _ E) as (H1 & H2 & H3 & H4 & _).
      rewrite H1, H2, H3, H4. simpl. split; [intros _; split; reflexivity | discriminate].
    + split; [intros H; contradiction H; reflexivity|].
      intros [H1 H2]. revert E. unfold generateTTS_start. rewrite H2.
      destruct (trim_empty (text st)); [discriminate H1|].
      destruct (truthy_value (selectedVoice st)) as [v|]; [|discriminate H1].
      destruct (truthy_value (selectedLang st)) as [l|]; [|discriminate H1].
      simpl. discriminate.
  - unfold generateTTS_start.
    destruct (trim_empty (text st) || isGenerating st); [reflexivity|].
    destruct (truthy_value (selectedVoice st)) as [v|],
      (truthy_value (selectedLang st)) as [l|]; simpl;
      solve [reflexivity | discriminate].
  - intros pd Hpd. apply generateTTS_start_snd in Hpd.
    destruct (generateTTS_start_Some _ _ _ Hpd) as (_ & _ & H3 & H4 & H5 & H6 & H7).
    rewrite Hpd. simpl fst. rewrite H7.
    apply truthy_value_Some in H3 as [H3 _]. apply truthy_value_Some in H4 as [H4 _].
    repeat split; assumption || reflexivity.
Qed.

(** Once the reply of a started [generateTTS] arrives, [isGenerating]
    is false whatever the outcome, and no further request is made.  A
    rejected call raises the alert "Synthesis failed. Try again." and
    changes nothing else; so does a reply without audio, without the
    alert.  A reply with audio [a] puts the new entry first in the
    history kept at the start and keeps 50 entries; then either the
    history is stored and the playback of [a] starts, or [setItem]
    throws [QuotaExceededError]: the stored record stays as it was,
    nothing is played and the alert "Synthesis failed. Try again." is
    shown. *)
Theorem generateTTS_finish_outcome (stringify : list History.AudioHistoryItem -> string)
  (fits : gmap string string -> bool)
  (now : N) (stamp : string) (pd : Pending) (r : reply) (st : Studio) :
  let st' := generateTTS_finish stringify fits now stamp pd r st in
  isGenerating st' = false /\ requests st' = requests st /\
  match reply_audio r with
  | None =>
      app st' = app st /\ player st' = player st /\
      alerts st' = alerts st ++ (match r with Rejected => [synthesis_failed] | Reply _ => [] end)
  | Some a =>
      History.history (app st')
        = firstn 50 (Ids.newItem now (p_text pd) (p_voice pd) (voiceLabel_of (p_voice pd))
                       (p_lang pd) (languageName_of (p_lang pd)) stamp a :: p_history pd) /\
      ((History.storage (app st') !! History.HISTORY_KEY
          = Some (stringify (History.history (app st'))) /\
        player st' = drain (playFromBase64 (player st) a) /\
        alerts st' = alerts st) \/
       (History.storage (app st') = History.storage (app st) /\
        player st' = player st /\
        alerts st' = alerts st ++ [synthesis_failed]))
  end.
Proof.
  destruct r as [d|]; cbn zeta; unfold generateTTS_finish.
  - simpl reply_audio. destruct (truthy_value d) as [a|].
    + match goal with |- context [History.saveToHistory ?f ?g ?s ?i] =>
        destruct (save_outcome f g s i) as [Hh Hc];
        destruct (History.saveToHistory f g s i) as [saved thrown] end.
      simpl in Hh, Hc.
      destruct Hc as [[-> Hk] | [-> Hs]]; cbn.
      * split; [reflexivity|]. split; [reflexivity|]. split; [exact Hh|].
        left. split; [exact Hk|]. split; reflexivity.
      * split; [reflexivity|]. split; [reflexivity|]. split; [exact Hh|].
        right. split; [exact Hs|]. split; reflexivity.
    + cbn. rewrite app_nil_r. repeat split; reflexivity.
  - cbn. repeat split; reflexivity.
Qed.

(** A history change made while a synthesis is pending is lost: when
    the reply with audio arrives, the history becomes the new entry
    followed by the history of the moment the button was pressed,
    whatever the history has become in between (entries deleted, or the
    archive wiped, come back), and whether or not [setItem] succeeds. *)
Theorem generateTTS_overwrites_interim_history
  (stringify : list History.AudioHistoryItem -> string)
  (fits : gmap string string -> bool) (now : N) (stamp : string)
  (st st_mid : Studio) (pd : Pending) (a : string)
  (Hstart : snd (generateTTS_start st) = Some pd)
  (Ha : a <> ""%string) :
  History.history (app (generateTTS_finish stringify fits now stamp pd (Reply (Some a)) st_mid))
  = firstn 50 (Ids.newItem now (text st) (p_voice pd) (voiceLabel_of (p_voice pd))
                 (p_lang pd) (languageName_of (p_lang pd)) stamp a
               :: History.history (app st)).
Proof.
  apply generateTTS_start_snd in Hstart.
  destruct (generateTTS_start_Some _ _ _ Hstart) as (_ & _ & _ & _ & H5 & H6 & _).
  rewrite (finish_history stringify fits now stamp pd (Some a) a st_mid
             (truthy_value_nonempty a Ha)).
  rewrite <- H5, <- H6. reflexivity.
Qed.

Lemma generateTTS_overwrites_interim_history_witness :
  History.history (app demo_cleared) = [] /\
  History.history (app (generateTTS_finish (fun _ => "[]"%string) (fun _ => true)
                          1700000000000 "t" demo_pending (Reply (Some "AAAA"%string))
                          demo_cleared))
  = firstn 50 (Ids.newItem 1700000000000 (text demo_studio) (p_voice demo_pending)
                 (voiceLabel_of (p_voice demo_pending)) (p_lang demo_pending)
                 (languageName_of (p_lang demo_pending)) "t" "AAAA"
               :: History.history (app demo_studio)).
Proof.
  split; [reflexivity|].
  apply generateTTS_overwrites_interim_history.
  - vm_compute. reflexivity.
  - vm_compute. intros E. discriminate E.
Defined.

(** An entry generated with a voice of the catalogue records the voice
    id and, as label, the label of the first catalogue voice with that
    id: always one of Evelyn, Caleb, Finn, Winston and Silas.  A
    synthesis made with Maya, Aria or Alex is archived as Evelyn, Finn
    or Caleb, the voices sharing their ids. *)
Theorem generateTTS_catalogue_labels
  (stringify : list History.AudioHistoryItem -> string)
  (fits : gmap string string -> bool) (now : N) (stamp : string)
  (st st_mid : Studio) (pd : Pending) (d : option string) (a : string)
  (v : Catalogue.VoiceOption)
  (Hstart : snd (generateTTS_start st) = Some pd)
  (Hv : In v Catalogue.voices)
  (Hsel : selectedVoice st = Some (Catalogue.id v))
  (Ha : truthy_value d = Some a) :
  exists item,
    head (History.history (app (generateTTS_finish stringify fits now stamp pd (Reply d) st_mid)))
      = Some item /\
    History.voice item = Catalogue.id v /\
    History.voiceLabel item = voiceLabel_of (Catalogue.id v) /\
    In (History.voiceLabel item) ["Evelyn"; "Caleb"; "Finn"; "Winston"; "Silas"]%string.
Proof.
  apply generateTTS_start_snd in Hstart.
  destruct (generateTTS_start_Some _ _ _ Hstart) as (_ & _ & H3 & _).
  rewrite Hsel in H3. apply truthy_value_Some in H3 as [H3 _].
  injection H3 as H3.
  rewrite (finish_history stringify fits now stamp pd d a st_mid Ha). cbn.
  eexists. split; [reflexivity|]. simpl. rewrite <- H3.
  split; [reflexivity|]. split; [reflexivity|]. apply catalogue_labels, Hv.
Qed.

Lemma generateTTS_catalogue_labels_witness :
  Catalogue.label maya = "Maya"%string /\
  exists item,
    head (History.history (app (generateTTS_finish (fun _ => "[]"%string) (fun _ => true)
                                  1700000000000 "t" demo_pending
                                  (Reply (Some "AAAA"%string)) demo_studio)))
      = Some item /\
    History.voice item = Catalogue.id maya /\
    History.voiceLabel item = voiceLabel_of (Catalogue.id maya) /\
    In (History.voiceLabel item) ["Evelyn"; "Caleb"; "Finn"; "Winston"; "Silas"]%string.
Proof.
  split; [reflexivity|].
  apply (generateTTS_catalogue_labels _ _ _ _ demo_studio demo_studio demo_pending
           (Some "AAAA"%string) "AAAA" maya).
  - vm_compute. reflexivity.
  - simpl. do 5 right. left. reflexivity.
  - reflexivity.
  - vm_compute. reflexivity.
Defined.

(** A preview request is made only with a language selected, for a
    voice whose sample is not cached, and marks the preview as running.
    Neither half of [generateTTS] nor playing an archived entry clears
    that mark, only the reply of the preview does; and in every state
    where the mark is set and a language is selected (once one is
    chosen, the language buttons only set codes of the catalogue), a
    preview click, for any voice, cached or not, does nothing at all. *)
Theorem playVoiceSample_single_flight (v : Catalogue.VoiceOption) (st st1 : Studio)
  (pp : PendingPreview)
  (Hstart : playVoiceSample_start v st = (st1, Some pp))
  (Hlabel : Catalogue.label v <> ""%string) :
  selectedLang st = Some (pv_lang pp) /\
  truthy_value (cache_get (sampleCache st) (Catalogue.id v) (pv_lang pp)) = None /\
  isPreviewing st1 = Some (Catalogue.label v) /\
  requests st1 = requests st ++ [(sampleText_of (pv_lang pp), Catalogue.id v)] /\
  (forall s, isPreviewing (fst (generateTTS_start s)) = isPreviewing s) /\
  (forall stringify fits now stamp pd r s,
     isPreviewing (generateTTS_finish stringify fits now stamp pd r s) = isPreviewing s) /\
  (forall s a, isPreviewing (play s a) = isPreviewing s) /\
  (forall s, isPreviewing s = isPreviewing st1 -> opt_truthy (selectedLang s) = true ->
     forall v', playVoiceSample_start v' s = (s, None)).
Proof.
  destruct (playVoiceSample_start_Some _ _ _ _ Hstart) as (H1 & H2 & H3 & H4 & ->).
  pose proof H1 as H1'. apply truthy_value_Some in H1' as [H1' _].
  split; [exact H1'|]. split; [exact H3|]. split; [reflexivity|].
  split; [reflexivity|]. split; [|split; [|split]].
  - intros s. unfold generateTTS_start.
    destruct (trim_empty (text s) || isGenerating s); [reflexivity|].
    destruct (truthy_value (selectedVoice s)), (truthy_value (selectedLang s));
      reflexivity.
  - intros stringify fits now stamp pd r s. unfold generateTTS_finish.
    destruct r as [d|]; [|reflexivity].
    destruct (truthy_value d) as [a|]; [|reflexivity].
    match goal with |- context [History.saveToHistory ?f ?g ?s ?i] =>
      destruct (History.saveToHistory f g s i) as [saved [e|]] end; reflexivity.
  - reflexivity.
  - intros s Hp Hl v'. unfold playVoiceSample_start.
    unfold opt_truthy in Hl. destruct (truthy_value (selectedLang s)); [|discriminate].
    rewrite Hp. cbn [isPreviewing add_request set_previewing]. unfold opt_truthy.
    rewrite (truthy_value_nonempty _ Hlabel). reflexivity.
Qed.

Lemma playVoiceSample_single_flight_witness :
  playVoiceSample_start (nth 7 Catalogue.voices maya)
    (fst (playVoiceSample_start maya demo_studio))
  = (fst (playVoiceSample_start maya demo_studio), None).
Proof.
  destruct (playVoiceSample_single_flight maya demo_studio
              (fst (playVoiceSample_start maya demo_studio))
              {| pv_voice := "Kore"; pv_lang := "en-US" |})
    as (_ & _ & _ & _ & _ & _ & _ & H).
  - vm_compute. reflexivity.
  - vm_compute. intros E. discriminate E.
  - apply H; vm_compute; reflexivity.
Defined.

(** A preview whose reply carries audio [a] caches it under the voice
    id and the language of the click and clears the preview mark; from
    then on, with the same language selected, a preview click on any
    voice with that id (Evelyn and Maya share one) makes no request and
    plays [a] again. *)
Theorem playVoiceSample_cache_reuse (v : Catalogue.VoiceOption) (st st1 st_mid : Studio)
  (pp : PendingPreview) (r : reply) (a : string)
  (Hstart : playVoiceSample_start v st = (st1, Some pp))
  (Hr : reply_audio r = Some a)
  (Hlang : selectedLang st_mid = selectedLang st) :
  isPreviewing (playVoiceSample_finish pp r st_mid) = None /\
  cache_get (sampleCache (playVoiceSample_finish pp r st_mid)) (Catalogue.id v) (pv_lang pp)
    = Some a /\
  (forall v', Catalogue.id v' = Catalogue.id v ->
     playVoiceSample_start v' (playVoiceSample_finish pp r st_mid)
     = (play (playVoiceSample_finish pp r st_mid) a, None)).
Proof.
  destruct (playVoiceSample_start_Some _ _ _ _ Hstart) as (H1 & _ & _ & H4 & _).
  assert (Ha : a <> ""%string).
  { destruct r as [d|]; [|discriminate]. simpl in Hr.
    exact (proj2 (truthy_value_Some _ _ Hr)). }
  assert (Hc : cache_get (sampleCache (playVoiceSample_finish pp r st_mid))
                 (Catalogue.id v) (pv_lang pp) = Some a).
  { unfold playVoiceSample_finish. rewrite Hr. cbn. rewrite <- H4.
    apply lookup_insert_eq. }
  split; [unfold playVoiceSample_finish; rewrite Hr; reflexivity|].
  split; [exact Hc|].
  intros v' Hid. unfold playVoiceSample_start at 1.
  assert (Hl : selectedLang (playVoiceSample_finish pp r st_mid) = selectedLang st).
  { unfold playVoiceSample_finish. rewrite Hr. exact Hlang. }
  assert (Hp : isPreviewing (playVoiceSample_finish pp r st_mid) = None).
  { unfold playVoiceSample_finish. rewrite Hr. reflexivity. }
  rewrite Hl, H1, Hp. cbn [opt_truthy truthy_value].
  rewrite Hid, Hc, (truthy_value_nonempty a Ha). reflexivity.
Qed.

Lemma playVoiceSample_cache_reuse_witness :
  playVoiceSample_start maya
    (playVoiceSample_finish {| pv_voice := "Kore"; pv_lang := "en-US" |}
       (Reply (Some "AAAA"%string)) demo_studio)
  = (play (playVoiceSample_finish {| pv_voice := "Kore"; pv_lang := "en-US" |}
             (Reply (Some "AAAA"%string)) demo_studio) "AAAA", None).
Proof.
  apply (playVoiceSample_cache_reuse (nth 0 Catalogue.voices maya) demo_studio
           (fst (playVoiceSample_start (nth 0 Catalogue.voices maya) demo_studio))
           demo_studio).
  - vm_compute. reflexivity.
  - vm_compute. reflexivity.
  - reflexivity.
  - reflexivity.
Defined.

(** A preview whose call is rejected or brings no audio clears the
    preview mark and leaves the cache and the player as they were; the
    next click on the same voice, with the same language, sends a new
    request. *)
Theorem playVoiceSample_failure_retries (v : Catalogue.VoiceOption) (st st1 st_mid : Studio)
  (pp : PendingPreview) (r : reply)
  (Hstart : playVoiceSample_start v st = (st1, Some pp))
  (Hr : reply_audio r = None)
  (Hlang : selectedLang st_mid = selectedLang st)
  (Hmiss : cache_get (sampleCache st_mid) (Catalogue.id v) (pv_lang pp) = None) :
  isPreviewing (playVoiceSample_finish pp r st_mid) = None /\
  sampleCache (playVoiceSample_finish pp r st_mid) = sampleCache st_mid /\
  player (playVoiceSample_finish pp r st_mid) = player st_mid /\
  exists st3 pp',
    playVoiceSample_start v (playVoiceSample_finish pp r st_mid) = (st3, Some pp') /\
    requests st3 = requests st_mid ++ [(sampleText_of (pv_lang pp), Catalogue.id v)].
Proof.
  destruct (playVoiceSample_start_Some _ _ _ _ Hstart) as (H1 & _ & _ & _ & _).
  unfold playVoiceSample_finish. rewrite Hr.
  split; [reflexivity|]. split; [reflexivity|]. split; [reflexivity|].
  unfold playVoiceSample_start. cbn [selectedLang set_previewing].
  rewrite Hlang, H1. cbn [isPreviewing set_previewing opt_truthy truthy_value].
  cbn [sampleCache set_previewing]. rewrite Hmiss. cbn [truthy_value].
  eexists; eexists. split; [reflexivity|]. reflexivity.
Qed.

Lemma playVoiceSample_failure_retries_witness :
  exists st3 pp',
    playVoiceSample_start maya
      (playVoiceSample_finish {| pv_voice := "Kore"; pv_lang := "en-US" |} Rejected demo_studio)
    = (st3, Some pp') /\
    requests st3 = requests demo_studio ++ [(sampleText_of "en-US", "Kore"%string)].
Proof.
  destruct (playVoiceSample_failure_retries maya demo_studio
              (fst (playVoiceSample_start maya demo_studio)) demo_studio
              {| pv_voice := "Kore"; pv_lang := "en-US" |} Rejected)
    as (_ & _ & _ & H).
  - vm_compute. reflexivity.
  - reflexivity.
  - reflexivity.
  - reflexivity.
  - exact H.
Defined.

End StudioExtras.
